(** * responses: the matcher / dispatcher core of [responses.py]

    A shallow embedding of [src/responses.py] (the [RequestsMock] class and
    its helpers) together with the properties of its registry, matcher,
    dispatcher, call recorder and session controller.

    Conventions of the embedding.
    - Python strings are [string], their characters being those of [ascii];
      the three [str] methods the module calls
      ([count], [replace] with count 1, [split] with maxsplit 1) are embedded
      for the one-character needles the module passes them.
    - [re.escape] and [re.match] belong to the Python standard library; they
      are embedded for the fragment of the pattern language that [re.escape]
      produces (module [Re]).
    - A reference to a dictionary stored in [self._urls] is its position in
      that list; the list only grows between two [reset]s.
    - The methods that mutate [self] or raise are functions in the monad
      [M] of state plus exceptions.
    - A [side_effect] callback is a function of the [Request] it receives
      that returns a value or raises; it does not reach the mock. A
      sequence given as [side_effect] is taken by value at registration. *)

From Stdlib Require Import ZArith Lia Ascii String.
From stdpp Require Import base option list strings gmap.

#[local] Arguments String.append !s1 s2 : simpl nomatch.

(* ===================================================================== *)
(** ** Python string methods used by the module *)
(* ===================================================================== *)

Module Str.

(** [s.count(c)] for a one-character [c]. *)
Fixpoint count (c : ascii) (s : string) : nat :=
  match s with
  | EmptyString => 0
  | String a s' => (if Ascii.eqb a c then 1 else 0) + count c s'
  end.

(** [s.replace(c, new, 1)] for a one-character [c]: only the first
    occurrence is replaced; without an occurrence [s] is returned. *)
Fixpoint replace_first (c : ascii) (new : string) (s : string) : string :=
  match s with
  | EmptyString => EmptyString
  | String a s' =>
      if Ascii.eqb a c then new +:+ s' else String a (replace_first c new s')
  end.

(** [s.split(c, 1)[0]] for a one-character [c]: what precedes the first
    occurrence of [c], or all of [s]. *)
Fixpoint split_head (c : ascii) (s : string) : string :=
  match s with
  | EmptyString => EmptyString
  | String a s' => if Ascii.eqb a c then EmptyString else String a (split_head c s')
  end.

(** [s.startswith(p)]. *)
Fixpoint startswith (p s : string) : bool :=
  match p, s with
  | EmptyString, _ => true
  | String a p', String b s' => Ascii.eqb a b && startswith p' s'
  | String _ _, EmptyString => false
  end.

(** [needle in s]. *)
Fixpoint contains (needle s : string) : bool :=
  startswith needle s ||
  match s with
  | EmptyString => false
  | String _ s' => contains needle s'
  end.

End Str.

(* ===================================================================== *)
(** ** The fragment of [re] the matcher relies on *)
(* ===================================================================== *)

Module Re.

Definition in_range (lo hi : nat) (c : ascii) : bool :=
  (lo <=? nat_of_ascii c)%nat && (nat_of_ascii c <=? hi)%nat.

(** [re._alphanum]: the ASCII letters and digits. *)
Definition alphanum (c : ascii) : bool :=
  in_range 97 122 c || in_range 65 90 c || in_range 48 57 c.

Definition NUL : ascii := Ascii.zero.
Definition backslash : ascii := "\"%char.

(** [re.escape(pattern)]: every character that is not alphanumeric gets a
    backslash in front of it; the NUL character becomes [\000]. *)
Fixpoint escape (pattern : string) : string :=
  match pattern with
  | EmptyString => EmptyString
  | String c rest =>
      if alphanum c then String c (escape rest)
      else if Ascii.eqb c NUL then String backslash ("000" +:+ escape rest)
      else String backslash (String c (escape rest))
  end.

Definition octal_digit (c : ascii) : option nat :=
  if in_range 48 55 c then Some (nat_of_ascii c - 48) else None.

(** Parsing of a pattern into the literal text it denotes, for patterns
    made of alphanumeric characters, escaped non-alphanumeric characters
    and octal escapes that start with [\0] (at most two more octal
    digits, as [sre_parse] reads them). Any other construct is outside
    the fragment: [None]. *)
Fixpoint literal (pattern : string) : option string :=
  match pattern with
  | EmptyString => Some EmptyString
  | String c rest =>
      if Ascii.eqb c backslash then
        match rest with
        | EmptyString => None
        | String e rest1 =>
            if Ascii.eqb e "0"%char then
              match rest1 with
              | String d1 rest2 =>
                  match octal_digit d1 with
                  | Some v1 =>
                      match rest2 with
                      | String d2 rest3 =>
                          match octal_digit d2 with
                          | Some v2 =>
                              String (ascii_of_nat (v1 * 8 + v2)) <$> literal rest3
                          | None => String (ascii_of_nat v1) <$> literal rest2
                          end
                      | EmptyString => Some (String (ascii_of_nat v1) EmptyString)
                      end
                  | None => String NUL <$> literal rest1
                  end
              | EmptyString => Some (String NUL EmptyString)
              end
            else if alphanum e then None
            else String e <$> literal rest1
        end
      else if alphanum c then String c <$> literal rest
      else None
  end.

(** [re.match(pattern, s)] on that fragment: [Some true] when a match
    object is returned, [Some false] when [None] is, and [None] for a
    pattern outside the fragment. A literal pattern matches at the start
    of [s] exactly when [s] starts with the literal text. *)
Definition match_ (pattern s : string) : option bool :=
  (fun lit => Str.startswith lit s) <$> literal pattern.

End Re.

(* ===================================================================== *)
(** ** Data model *)
(* ===================================================================== *)

(** [requests.PreparedRequest], as the module reads it. *)
Record PreparedRequest := {
  pr_method : string;
  pr_url : string;
  pr_headers : gmap string string;
  pr_body : string;
}.

(** [class Request]: what a [side_effect] callback receives. *)
Record Request := {
  method : string;
  url : string;
  headers : gmap string string;
  params : gmap string string;
  data : gmap string string;
}.

(** [class Response]: [body] holds the bytes the constructor stores. *)
Record Response := {
  body : string;
  status : Z;
  adding_headers : option (gmap string string);
  stream : bool;
  content_type : string;
}.

(** The call [HTTPResponse(status=..., body=BufferIO(...), headers=...,
    preload_content=False)], by the arguments the module hands to it:
    [hr_body] is the text of the buffer and [hr_headers] the plain
    dictionary that [_as_http_response] builds. What [urllib3] then makes
    of that dictionary (its own store of headers, which does not
    distinguish the case of the names) is the library's and is not
    embedded. *)
Record HTTPResponse := {
  hr_status : Z;
  hr_body : string;
  hr_headers : gmap string string;
}.

(** The response of [requests] that [HTTPAdapter.build_response] makes,
    for what the module sets or touches: the status code, the raw
    response it wraps, the url and the request it is bound to, and
    whether [response.content] has been accessed, which makes [requests]
    read the raw body. The headers and the content that [requests]
    derives from the raw response are the library's and are read off
    [rr_raw]. *)
Record RequestsResponse := {
  rr_status_code : Z;
  rr_raw : HTTPResponse;
  rr_url : string;
  rr_request : PreparedRequest;
  rr_content_read : bool;
}.

(** Exceptions that cross the dispatcher. *)
Inductive Exn :=
| ConnectionError (msg : string)
| StopIteration
| AttributeError (msg : string)
| RuntimeError (msg : string)
| UserError (tag : string).

(** The outcome of a Python call: a value or a raised exception. *)
Inductive Res (A : Type) :=
| Ok (a : A)
| Raise (e : Exn).
Arguments Ok {A} a.
Arguments Raise {A} e.

(** What a callback or an iterator hands back: [None] or a [Response]. *)
Inductive PyVal :=
| VNone
| VResponse (r : Response).

(** The [side_effect] argument of [add]. *)
Inductive SideEffectArg :=
| ArgNone
| ArgCallable (f : Request -> Res PyVal)
| ArgSequence (items : list PyVal)
| ArgOther.

(** The ['side_effect'] entry of a stored dictionary. An iterator made by
    [iter(seq)] is the list of the items it has yet to yield. *)
Inductive SideEffect :=
| SE_None
| SE_Callable (f : Request -> Res PyVal)
| SE_Iterator (remaining : list PyVal)
| SE_Other.

(** The dictionary [match] that [add] appends to [self._urls]. *)
Record Match := {
  m_url : string;
  m_method : string;
  m_match_querystring : bool;
  m_side_effect : SideEffect;
  m_response : Response;
}.

(** [Call = namedtuple('Call', ['request', 'response'])]; the response slot
    holds a response or the exception that was raised. *)
Record Call := {
  c_request : PreparedRequest;
  c_response : RequestsResponse + Exn;
}.

(** What [requests.Session.send] is bound to. *)
Inductive SendImpl :=
| OriginalSend
| MockSend.

(** A [mock.patch] object: [temp_original] is set while it is started. *)
Record Patcher := {
  temp_original : option SendImpl;
}.

(** A [RequestsMock] instance together with the attribute of the host
    client that it patches. *)
Record RequestsMock := {
  _urls : list Match;
  _calls : list Call;
  _patcher : option Patcher;
  Session_send : SendImpl;
}.

(* ===================================================================== *)
(** ** The monad of the methods: state of the mock plus exceptions *)
(* ===================================================================== *)

Definition M (A : Type) : Type := RequestsMock -> Res A * RequestsMock.

Definition ret {A} (a : A) : M A := fun s => (Ok a, s).

Definition raise {A} (e : Exn) : M A := fun s => (Raise e, s).

Definition bind {A B} (c : M A) (k : A -> M B) : M B :=
  fun s =>
    match c s with
    | (Ok a, s') => k a s'
    | (Raise e, s') => (Raise e, s')
    end.

Definition get : M RequestsMock := fun s => (Ok s, s).

Definition modify (f : RequestsMock -> RequestsMock) : M unit :=
  fun s => (Ok tt, f s).


Declare Scope py_scope.
Delimit Scope py_scope with py.
Notation "x <- c ;; k" := (bind c (fun x => k))
  (at level 100, c at next level, right associativity) : py_scope.
Notation "c ;;; k" := (bind c (fun _ => k))
  (at level 100, right associativity) : py_scope.
Local Open Scope py_scope.

(** Field updates of the instance. *)
Definition set_urls (u : list Match) (s : RequestsMock) : RequestsMock :=
  {| _urls := u; _calls := _calls s; _patcher := _patcher s;
     Session_send := Session_send s |}.

Definition set_calls (c : list Call) (s : RequestsMock) : RequestsMock :=
  {| _urls := _urls s; _calls := c; _patcher := _patcher s;
     Session_send := Session_send s |}.

Definition set_patch (p : option Patcher) (f : SendImpl) (s : RequestsMock)
  : RequestsMock :=
  {| _urls := _urls s; _calls := _calls s; _patcher := p; Session_send := f |}.

Definition set_side_effect (se : SideEffect) (m : Match) : Match :=
  {| m_url := m_url m; m_method := m_method m;
     m_match_querystring := m_match_querystring m;
     m_side_effect := se; m_response := m_response m |}.

(* ===================================================================== *)
(** ** [class CallList] *)
(* ===================================================================== *)

Module CallList.

Definition len (calls : list Call) : Z := Z.of_nat (length calls).

(** [self._calls[idx]] with Python's indexing: a negative index counts
    from the end, an index out of range raises [IndexError] ([None]). *)
Definition getitem (calls : list Call) (idx : Z) : option Call :=
  if (0 <=? idx)%Z then calls !! Z.to_nat idx
  else if (- len calls <=? idx)%Z then calls !! Z.to_nat (len calls + idx)
  else None.

Definition add (request : PreparedRequest) (response : RequestsResponse + Exn)
  : M unit :=
  modify (fun s =>
    set_calls (_calls s ++ [ {| c_request := request; c_response := response |} ]) s).

Definition reset : M unit := modify (set_calls []).

End CallList.

(* ===================================================================== *)
(** ** [class Request] and [class Response] *)
(* ===================================================================== *)

(** The two functions of [urlparse] that [Request] calls; they are taken
    as an interface of the standard library. [urlparse_query u] is
    [urlparse(u).query]. *)
Class UrlLib := {
  urlparse_query : string -> string;
  parse_qsl : string -> list (string * string);
}.

(** [dict(pairs)]: a later pair overrides an earlier one with the same key. *)
Definition dict (pairs : list (string * string)) : gmap string string :=
  list_to_map (reverse pairs).

Definition _from_prepared_request `{UrlLib} (request : PreparedRequest) : Request :=
  {| method := pr_method request;
     url := pr_url request;
     headers := pr_headers request;
     params := dict (parse_qsl (urlparse_query (pr_url request)));
     data := dict (parse_qsl (pr_body request)) |}.

(** [headers] is a plain Python dictionary: [update] overrides the entry
    with the very same key and adds the others. *)
Definition _as_http_response (self : Response) : HTTPResponse :=
  let headers : gmap string string := {[ "Content-Type" := content_type self ]} in
  let headers :=
    match adding_headers self with
    | Some extra => extra ∪ headers
    | None => headers
    end in
  {| hr_status := status self; hr_body := body self; hr_headers := headers |}.

(** [HTTPAdapter().build_response(req, resp)], for the attributes kept in
    [RequestsResponse]; [response.content] has not been accessed yet. *)
Definition build_response (req : PreparedRequest) (resp : HTTPResponse)
  : RequestsResponse :=
  {| rr_status_code := hr_status resp;
     rr_raw := resp; rr_url := pr_url req; rr_request := req;
     rr_content_read := false |}.

(** The access [response.content]: from then on the response holds what
    [requests] has read from the raw body. *)
Definition read_content (r : RequestsResponse) : RequestsResponse :=
  {| rr_status_code := rr_status_code r;
     rr_raw := rr_raw r; rr_url := rr_url r; rr_request := rr_request r;
     rr_content_read := true |}.

Definition _as_requests_response (self : Response) (request : PreparedRequest)
  : RequestsResponse :=
  let response := build_response request (_as_http_response self) in
  if negb (stream self) then read_content response else response.

(* ===================================================================== *)
(** ** [class RequestsMock] *)
(* ===================================================================== *)

(** [RequestsMock()]: no [_patcher] attribute yet, the host client intact. *)
Definition init : RequestsMock :=
  {| _urls := []; _calls := []; _patcher := None; Session_send := OriginalSend |}.

Definition reset : M unit :=
  modify (set_urls []) ;;; CallList.reset.

(** The default path that [add] gives to a url with exactly two slashes. *)
Definition default_path (url : string) (match_querystring : bool) : string :=
  if (Str.count "/" url =? 2)%nat then
    if match_querystring then Str.replace_first "?" "/?" url
    else url +:+ "/"
  else url.

(** [iter(side_effect)] for a [Sequence]; anything else is stored as it is. *)
Definition iter_of (side_effect : SideEffectArg) : SideEffect :=
  match side_effect with
  | ArgNone => SE_None
  | ArgCallable f => SE_Callable f
  | ArgSequence items => SE_Iterator items
  | ArgOther => SE_Other
  end.

(** [add(method, url, match_querystring, side_effect, *args, **kwargs)];
    [response] is [Response( *args, **kwargs)]. *)
Definition add (method url : string) (match_querystring : bool)
    (side_effect : SideEffectArg) (response : Response) : M unit :=
  let url := default_path url match_querystring in
  let side_effect := iter_of side_effect in
  let match_ :=
    {| m_url := url; m_method := method;
       m_match_querystring := match_querystring;
       m_side_effect := side_effect; m_response := response |} in
  modify (fun s => set_urls (_urls s ++ [match_]) s).

(** The test of one iteration of the loop of [_find_match]: [true] when
    the loop returns [match], [false] when it continues. *)
Definition satisfies (request_method url url_without_qs : string) (match_ : Match)
  : bool :=
  if negb (String.eqb request_method (m_method match_)) then false
  else if m_match_querystring match_ then
    match Re.match_ (Re.escape (m_url match_)) url with
    | Some true => true
    | _ => false
    end
  else if negb (String.eqb (m_url match_) url_without_qs) then false
  else true.

(** [for match in self._urls: ...], [i] being the position of the head of
    [urls] in [self._urls]. The dictionary found is returned with its
    position, which stands for the reference to it. *)
Fixpoint find_loop (request_method url url_without_qs : string) (i : nat)
    (urls : list Match) : option (nat * Match) :=
  match urls with
  | [] => None
  | match_ :: rest =>
      if satisfies request_method url url_without_qs match_ then Some (i, match_)
      else find_loop request_method url url_without_qs (S i) rest
  end.

Definition _find_match (self : RequestsMock) (request : PreparedRequest)
  : option (nat * Match) :=
  let url := pr_url request in
  let url_without_qs := Str.split_head "?" url in
  find_loop (pr_method request) url url_without_qs 0 (_urls self).

(** [next(match['side_effect'])]: the iterator lives in the dictionary at
    position [i] of [self._urls], so advancing it updates that entry. *)
Definition next (i : nat) (match_ : Match) (remaining : list PyVal) : M PyVal :=
  match remaining with
  | [] => raise StopIteration
  | item :: rest =>
      modify (fun s =>
        set_urls (<[i := set_side_effect (SE_Iterator rest) match_]> (_urls s)) s) ;;;
      ret item
  end.

Definition _get_response `{UrlLib} (match_ : option (nat * Match))
    (request : PreparedRequest) : M PyVal :=
  match match_ with
  | None => ret VNone
  | Some (i, match_) =>
      match m_side_effect match_ with
      | SE_None => ret (VResponse (m_response match_))
      | SE_Callable side_effect =>
          fun s => (side_effect (_from_prepared_request request), s)
      | SE_Iterator remaining => next i match_ remaining
      | SE_Other => ret VNone
      end
  end.

Definition error_msg (request : PreparedRequest) : string :=
  "Connection refused: " +:+ pr_url request.

Definition _on_request `{UrlLib} (request : PreparedRequest) : M RequestsResponse :=
  match_ <- (fun s => (Ok (_find_match s request), s)) ;;
  response <- _get_response match_ request ;;
  match response with
  | VNone =>
      let response := ConnectionError (error_msg request) in
      CallList.add request (inr response) ;;;
      raise response
  | VResponse response =>
      let response := _as_requests_response response request in
      CallList.add request (inl response) ;;;
      ret response
  end.

(** [start]: a new patcher replaces [requests.Session.send] and keeps what
    was there. *)
Definition start : M unit :=
  modify (fun s =>
    set_patch (Some {| temp_original := Some (Session_send s) |}) MockSend s).

(** [stop]: the patcher puts back what it kept. Without a [_patcher]
    attribute the call fails, and so does stopping a stopped patcher. *)
Definition stop : M unit :=
  fun s =>
    match _patcher s with
    | None => (Raise (AttributeError "_patcher"), s)
    | Some p =>
        match temp_original p with
        | None => (Raise (RuntimeError "stop called on unstarted patcher"), s)
        | Some original =>
            (Ok tt, set_patch (Some {| temp_original := None |}) original s)
        end
    end.


(** [n] dispatches in a row; the outcomes are listed in dispatch order. *)
Fixpoint dispatch_all `{UrlLib} (requests : list PreparedRequest)
    (s : RequestsMock) : list (Res RequestsResponse) * RequestsMock :=
  match requests with
  | [] => ([], s)
  | request :: rest =>
      let (r, s1) := _on_request request s in
      let (rs, s2) := dispatch_all rest s1 in
      (r :: rs, s2)
  end.

(* ===================================================================== *)
(** ** Vocabulary of the statements *)
(* ===================================================================== *)

(** The test of [_find_match] for a request. *)
Definition sat (request : PreparedRequest) : Match -> bool :=
  satisfies (pr_method request) (pr_url request)
    (Str.split_head "?" (pr_url request)).

(** The [Call] that a dispatch appends. *)
Definition call_of (request : PreparedRequest) (r : Res RequestsResponse) : Call :=
  {| c_request := request;
     c_response := match r with Ok x => inl x | Raise e => inr e end |}.

(** The state once [self._calls.add] has run. *)
Definition recorded (request : PreparedRequest) (r : Res RequestsResponse)
    (s : RequestsMock) : RequestsMock :=
  set_calls (_calls s ++ [call_of request r]) s.

(** The outcome of a dispatch whose response is [None]. *)
Definition refused (request : PreparedRequest) : Res RequestsResponse :=
  Raise (ConnectionError (error_msg request)).

(** The state once the iterator at position [i] has yielded an item. *)
Definition advanced (i : nat) (m : Match) (rest : list PyVal) (s : RequestsMock)
  : RequestsMock :=
  set_urls (<[i := set_side_effect (SE_Iterator rest) m]> (_urls s)) s.

(** A dispatch whose exception comes out of [_get_response]: the
    iterator found is exhausted, or the callback found raises. *)
Definition propagates `{UrlLib} (request : PreparedRequest) (s : RequestsMock)
  : bool :=
  match _find_match s request with
  | Some (_, m) =>
      match m_side_effect m with
      | SE_Iterator [] => true
      | SE_Callable f =>
          match f (_from_prepared_request request) with
          | Raise _ => true
          | Ok _ => false
          end
      | _ => false
      end
  | None => false
  end.



(** What the matcher reads of a dictionary. *)
Definition shape (m : Match) : string * string * bool :=
  (m_url m, m_method m, m_match_querystring m).

(** The position of the dictionary through which a request resolves. *)
Definition via (s : RequestsMock) (request : PreparedRequest) : option nat :=
  fst <$> _find_match s request.

(** The outcomes of the dispatches of a run that resolve through
    position [i], [v] telling the position for each request. *)
Fixpoint outcomes_through (v : PreparedRequest -> option nat) (i : nat)
    (requests : list PreparedRequest) (outs : list (Res RequestsResponse))
  : list (Res RequestsResponse) :=
  match requests, outs with
  | q :: requests, o :: outs =>
      (if decide (v q = Some i) then [o] else []) ++
      outcomes_through v i requests outs
  | _, _ => []
  end.

(** The requests of a run that resolve through position [i]. *)
Definition through (v : PreparedRequest -> option nat) (i : nat)
    (requests : list PreparedRequest) : list PreparedRequest :=
  filter (fun q => v q = Some i) requests.

(** What a sequence of responses gives to successive requests. *)
Fixpoint served (rs : list Response) (qs : list PreparedRequest)
  : list (Res RequestsResponse) :=
  match qs with
  | [] => []
  | q :: qs =>
      match rs with
      | r :: rs => Ok (_as_requests_response r q) :: served rs qs
      | [] => Raise StopIteration :: served [] qs
      end
  end.

(** The dictionary that [add] stores. *)
Definition stored (meth u : string) (mq : bool) (se : SideEffectArg)
    (resp : Response) : Match :=
  {| m_url := default_path u mq; m_method := meth; m_match_querystring := mq;
     m_side_effect := iter_of se; m_response := resp |}.

(* ===================================================================== *)
(** ** Data of the worked cases *)
(* ===================================================================== *)

Module Cases.

(** An instance of the [urlparse] interface: the query is what follows
    the first ['?'], and no pair is parsed out of it. *)
Fixpoint after_qmark (u : string) : string :=
  match u with
  | EmptyString => EmptyString
  | String c rest => if Ascii.eqb c "?" then rest else after_qmark rest
  end.

#[export] Instance plain_urllib : UrlLib :=
  {| urlparse_query := after_qmark; parse_qsl := fun _ => [] |}.

Definition req (meth u : string) : PreparedRequest :=
  {| pr_method := meth; pr_url := u; pr_headers := ∅; pr_body := "" |}.

Definition text (b : string) (st : Z) : Response :=
  {| body := b; status := st; adding_headers := None; stream := false;
     content_type := "text/plain" |}.

Definition after {A} (c : M A) (s : RequestsMock) : RequestsMock := snd (c s).

(** [add(GET, 'http://x.test/a', body='A')] then the same with ['B']. *)
Definition two_overlapping : RequestsMock :=
  after (add "GET" "http://x.test/a" false ArgNone (text "A" 200) ;;;
         add "GET" "http://x.test/a" false ArgNone (text "B" 200)) init.

(** [add(GET, 'http://x.test/?a=1', match_querystring=True)]. *)
Definition with_query : Match :=
  stored "GET" "http://x.test/?a=1" true ArgNone (text "" 200).

(** A sequence of two responses, dispatched three times. *)
Definition two_in_sequence : RequestsMock :=
  after (add "GET" "http://x.test/s" false
           (ArgSequence [VResponse (text "R1" 200); VResponse (text "R2" 404)])
           (text "" 200)) init.

Definition q_seq : PreparedRequest := req "GET" "http://x.test/s".

(** An exhausted sequence. *)
Definition exhausted : RequestsMock :=
  after (add "GET" "http://x.test/s" false (ArgSequence []) (text "" 200)) init.

(** A callback that answers [None], and one that raises. *)
Definition answers_none : RequestsMock :=
  after (add "GET" "http://x.test/c" false
           (ArgCallable (fun _ => Ok VNone)) (text "" 200)) init.

Definition raises_error : RequestsMock :=
  after (add "GET" "http://x.test/c" false
           (ArgCallable (fun _ => Raise (UserError "boom"))) (text "" 200)) init.

Definition not_found_unless_get (r : Request) : Res PyVal :=
  Ok (VResponse (text "" (if String.eqb (method r) "GET" then 200 else 404))).


End Cases.

(* ===================================================================== *)
(** ** Uses of a mock that never start it *)
(* ===================================================================== *)

(** [self.calls]. *)
Definition calls (self : RequestsMock) : list Call := _calls self.

(** One use of the mock by test code: a registration, a request handed
    to [_on_request], or a [reset]. *)
Inductive Op :=
| OpAdd (meth u : string) (mq : bool) (se : SideEffectArg) (resp : Response)
| OpRequest (q : PreparedRequest)
| OpReset.

Definition run_op `{UrlLib} (s : RequestsMock) (o : Op) : RequestsMock :=
  match o with
  | OpAdd meth u mq se resp => snd (add meth u mq se resp s)
  | OpRequest q => snd (_on_request q s)
  | OpReset => snd (reset s)
  end.

Definition run_ops `{UrlLib} (ops : list Op) (s : RequestsMock) : RequestsMock :=
  fold_left run_op ops s.

(* ===================================================================== *)
(** ** Data of the edge cases *)
(* ===================================================================== *)

Module Edge.

(** [add(GET, url, side_effect=42)]: neither callable nor an iterator. *)
Definition unusable : RequestsMock :=
  Cases.after (add "GET" "http://x.test/o" false ArgOther (Cases.text "" 200)) init.

(** [add(GET, url, side_effect=[None, Response('late')])]. *)
Definition none_first : RequestsMock :=
  Cases.after
    (add "GET" "http://x.test/n" false
       (ArgSequence [VNone; VResponse (Cases.text "late" 200)])
       (Cases.text "" 200)) init.

(** A recorder with two calls. *)
Definition two_calls : list Call :=
  [ call_of (Cases.req "GET" "http://x.test/a") (refused (Cases.req "GET" "http://x.test/a"));
    call_of (Cases.req "GET" "http://x.test/b") (refused (Cases.req "GET" "http://x.test/b")) ].

(** An instance of the [urlparse] interface whose query always parses to
    the pairs of [a=1&b=2&a=3]. *)
Definition repeated_key : UrlLib :=
  {| urlparse_query := Cases.after_qmark;
     parse_qsl := fun _ => [("a", "1"); ("b", "2"); ("a", "3")] |}.

End Edge.

(* ===================================================================== *)
(** ** Strings and patterns *)
(* ===================================================================== *)

Lemma startswith_iff (p s : string) :
  Str.startswith p s = true <-> exists t, s = p +:+ t.
Proof.
  revert s. induction p as [|a p IH]; intros s; simpl.
  - split; [intros _; by exists s | done].
  - destruct s as [|b s].
    + split; [done | intros [t Ht]; discriminate Ht].
    + rewrite andb_true_iff, IH. split.
      * intros [Hab [t ->]]. apply Ascii.eqb_eq in Hab as ->. by exists t.
      * intros [t Ht]. injection Ht as -> ->. split; [apply Ascii.eqb_refl | by exists t].
Qed.

Lemma startswith_refl (s : string) : Str.startswith s s = true.
Proof. induction s as [|a s IH]; simpl; [done | by rewrite Ascii.eqb_refl]. Qed.

(** [split_head c s] is the longest prefix of [s] without [c]; what is
    left of [s] is empty or starts at the first [c]. *)
Lemma split_head_spec (c : ascii) (s h : string) :
  Str.split_head c s = h <->
  Str.count c h = 0 /\
  exists rest, s = h +:+ rest /\ (rest = "" \/ exists r, rest = String c r).
Proof.
  revert h. induction s as [|a s IH]; intros h; simpl.
  - split.
    + intros <-. split; [done | exists ""; auto].
    + intros [_ (rest & Hs & _)]. destruct h; [done | discriminate Hs].
  - destruct (Ascii.eqb_spec a c) as [-> | Hne].
    + split.
      * intros <-. split; [done | exists (String c s); split; eauto].
      * intros [Hc (rest & Hs & _)]. destruct h as [|b h]; [done |].
        simpl in Hs, Hc. injection Hs as <- _.
        rewrite Ascii.eqb_refl in Hc. discriminate Hc.
    + split.
      * intros <-. simpl.
        destruct (proj1 (IH _) eq_refl) as [Hc (rest & Hs & Hr)].
        split.
        -- destruct (Ascii.eqb_spec a c); [done | exact Hc].
        -- exists rest. split; [exact (f_equal (String a) Hs) | exact Hr].
      * intros [Hc (rest & Hs & Hr)]. destruct h as [|b h].
        -- simpl in Hs. destruct Hr as [-> | [r ->]]; [discriminate Hs |].
           injection Hs as -> _. done.
        -- simpl in Hs, Hc. injection Hs as <- Hs. f_equal. apply IH.
           split; [| by exists rest].
           destruct (Ascii.eqb a c); [discriminate Hc | exact Hc].
Qed.

Lemma split_head_no_needle (c : ascii) (s : string) :
  Str.count c s = 0 -> Str.split_head c s = s.
Proof.
  intros Hc. apply split_head_spec. split; [done |].
  exists "". split; [| by left].
  clear Hc. induction s as [|a s IH]; simpl; [done | by rewrite <- IH].
Qed.

Lemma replace_first_no_needle (c : ascii) (new s : string) :
  Str.count c s = 0 -> Str.replace_first c new s = s.
Proof.
  induction s as [|a s IH]; simpl; [done |].
  destruct (Ascii.eqb a c); [done |]. intros Hc. by rewrite IH.
Qed.

Lemma contains_startswith (needle s : string) :
  Str.startswith needle s = true -> Str.contains needle s = true.
Proof. intros Hs. destruct s; simpl; by rewrite Hs. Qed.

Lemma contains_suffix (needle pre : string) :
  Str.contains needle (pre +:+ needle) = true.
Proof.
  induction pre as [|a pre IH].
  - exact (contains_startswith _ _ (startswith_refl needle)).
  - change (Str.startswith needle (String a (pre +:+ needle))
            || Str.contains needle (pre +:+ needle) = true).
    rewrite IH. apply orb_true_r.
Qed.

Lemma alphanum_not_backslash (c : ascii) :
  Re.alphanum c = true -> Ascii.eqb c Re.backslash = false.
Proof.
  intros Hc. destruct (Ascii.eqb_spec c Re.backslash) as [-> |]; [| done].
  vm_compute in Hc. discriminate Hc.
Qed.

Lemma not_alphanum_not_zero_digit (c : ascii) :
  Re.alphanum c = false -> Ascii.eqb c "0"%char = false.
Proof.
  intros Hc. destruct (Ascii.eqb_spec c "0"%char) as [-> |]; [| done].
  vm_compute in Hc. discriminate Hc.
Qed.

(** Escaping a text gives a pattern of the fragment that denotes the text. *)
Lemma literal_escape (p : string) : Re.literal (Re.escape p) = Some p.
Proof.
  induction p as [|c p IH]; [done |].
  cbn [Re.escape]. destruct (Re.alphanum c) eqn:Hal.
  - cbn [Re.literal]. rewrite (alphanum_not_backslash c Hal), Hal, IH. done.
  - destruct (Ascii.eqb_spec c Re.NUL) as [-> | Hnul].
    + change (Re.literal (String Re.backslash ("000" +:+ Re.escape p)))
        with (String Re.NUL <$> Re.literal (Re.escape p)).
      by rewrite IH.
    + cbn [Re.literal]. rewrite Ascii.eqb_refl.
      rewrite (not_alphanum_not_zero_digit c Hal), Hal, IH. done.
Qed.

(** [re.match(re.escape(p), s)] is [s.startswith(p)]. *)
Lemma match_escape (p s : string) :
  Re.match_ (Re.escape p) s = Some (Str.startswith p s).
Proof. unfold Re.match_. by rewrite literal_escape. Qed.

(* ===================================================================== *)
(** ** The matcher *)
(* ===================================================================== *)

Lemma satisfies_iff (meth url uq : string) (m : Match) :
  satisfies meth url uq m = true <->
  meth = m_method m /\
  (if m_match_querystring m then Str.startswith (m_url m) url = true
   else m_url m = uq).
Proof.
  unfold satisfies. rewrite match_escape.
  destruct (String.eqb_spec meth (m_method m)) as [Hm | Hm]; simpl.
  - destruct (m_match_querystring m).
    + destruct (Str.startswith (m_url m) url); intuition congruence.
    + destruct (String.eqb_spec (m_url m) uq); simpl; intuition congruence.
  - intuition congruence.
Qed.

Lemma sat_method (request : PreparedRequest) (m : Match) :
  sat request m = true -> pr_method request = m_method m.
Proof. intros H. by apply satisfies_iff in H as [? _]. Qed.

Section FindLoop.
Variables meth url uq : string.
Let test := satisfies meth url uq.

Lemma find_loop_Some (l : list Match) (i j : nat) (m : Match) :
  find_loop meth url uq i l = Some (j, m) <->
  exists k, j = i + k /\ l !! k = Some m /\ test m = true /\
    forall k' m', k' < k -> l !! k' = Some m' -> test m' = false.
Proof.
  revert i. induction l as [|x l IH]; intros i; simpl.
  - split; [done | by intros (k & _ & Hk & _)].
  - fold test. destruct (test x) eqn:Hx.
    + split.
      * intros [= <- <-]. exists 0. repeat split; [lia | done | lia].
      * intros (k & -> & Hk & Hm & Hfirst). destruct k as [|k].
        -- simpl in Hk. injection Hk as ->. do 2 f_equal. lia.
        -- specialize (Hfirst 0 x ltac:(lia) eq_refl). congruence.
    + rewrite IH. split.
      * intros (k & -> & Hk & Hm & Hfirst). exists (S k).
        repeat split; [lia | done | done |].
        intros [|k'] m' Hlt Hm'; simpl in Hm'; [congruence |].
        apply (Hfirst k'); [lia | done].
      * intros (k & -> & Hk & Hm & Hfirst). destruct k as [|k].
        -- simpl in Hk. congruence.
        -- exists k. repeat split; [lia | done | done |].
           intros k' m' Hlt Hm'. apply (Hfirst (S k')); [lia | done].
Qed.

Lemma find_loop_None (l : list Match) (i : nat) :
  find_loop meth url uq i l = None <-> forall m, m ∈ l -> test m = false.
Proof.
  revert i. induction l as [|x l IH]; intros i; simpl.
  - split; [intros _ m Hm; by apply elem_of_nil in Hm | done].
  - fold test. destruct (test x) eqn:Hx.
    + split; [done |]. intros H. specialize (H x ltac:(left)). congruence.
    + rewrite IH. split.
      * intros H m [-> | Hm]%elem_of_cons; auto.
      * intros H m Hm. apply H. by right.
Qed.

(** The loop skips a prefix in which nothing passes the test. *)
Lemma find_loop_skip (pre l : list Match) (i : nat) :
  (forall m, m ∈ pre -> test m = false) ->
  find_loop meth url uq i (pre ++ l) = find_loop meth url uq (i + length pre) l.
Proof.
  revert i. induction pre as [|x pre IH]; intros i Hpre; simpl.
  - f_equal. lia.
  - fold test. rewrite (Hpre x) by left.
    rewrite IH by (intros m Hm; apply Hpre; by right). f_equal. lia.
Qed.
End FindLoop.

Lemma find_match_Some (s : RequestsMock) (request : PreparedRequest)
    (i : nat) (m : Match) :
  _find_match s request = Some (i, m) <->
  _urls s !! i = Some m /\ sat request m = true /\
  forall j m', j < i -> _urls s !! j = Some m' -> sat request m' = false.
Proof.
  unfold _find_match. rewrite find_loop_Some. split.
  - intros (k & -> & H). exact H.
  - intros H. by exists i.
Qed.

Lemma find_match_None (s : RequestsMock) (request : PreparedRequest) :
  _find_match s request = None <->
  forall m, m ∈ _urls s -> sat request m = false.
Proof. unfold _find_match. apply find_loop_None. Qed.

Lemma find_match_in_range (s : RequestsMock) (request : PreparedRequest)
    (i : nat) (m : Match) :
  _find_match s request = Some (i, m) -> _urls s !! i = Some m.
Proof. intros H. by apply find_match_Some in H as [? _]. Qed.


(** C3. With equal methods, a dictionary that asks for the query string
    passes the test of the matcher exactly when [re.match] finds its
    escaped url at the start of the request's full url, that is when the
    request's url starts with that url taken literally; one that does not
    ask for it passes exactly when its url is the request's url cut at the
    first ['?']: it holds no ['?'] and the request's url is that url
    followed by nothing or by a text that starts with ['?']. *)
Theorem url_match_rule (request : PreparedRequest) (m : Match) :
  pr_method request = m_method m ->
  (m_match_querystring m = true ->
     (sat request m = true <->
      Re.match_ (Re.escape (m_url m)) (pr_url request) = Some true) /\
     (sat request m = true <-> exists t, pr_url request = m_url m +:+ t)) /\
  (m_match_querystring m = false ->
     (sat request m = true <-> m_url m = Str.split_head "?" (pr_url request)) /\
     (sat request m = true <->
        Str.count "?" (m_url m) = 0 /\
        exists rest, pr_url request = m_url m +:+ rest /\
          (rest = "" \/ exists r, rest = String "?" r))).
Proof.
  intros Hmeth. unfold sat. split; intros Hq.
  - rewrite satisfies_iff, Hq, match_escape, <- startswith_iff.
    split; [| tauto]. split; [intros [_ ->]; done | intros [= ->]; done].
  - rewrite satisfies_iff, Hq, <- split_head_spec.
    split; split; intros H; try split; try done; by destruct H.
Qed.

(* ===================================================================== *)
(** ** The dispatcher, one path of [_on_request] at a time *)
(* ===================================================================== *)

Section Dispatch.
Context `{UrlLib}.
Variable request : PreparedRequest.
Variable s : RequestsMock.

Lemma on_request_no_match :
  _find_match s request = None ->
  _on_request request s = (refused request, recorded request (refused request) s).
Proof. intros Hf. unfold _on_request, bind. by rewrite Hf. Qed.

Section Matched.
Variables (i : nat) (m : Match).
Hypothesis Hfind : _find_match s request = Some (i, m).

Lemma on_request_fixed :
  m_side_effect m = SE_None ->
  let r := Ok (_as_requests_response (m_response m) request) in
  _on_request request s = (r, recorded request r s).
Proof.
  intros Hse. unfold _on_request, bind, _get_response.
  by rewrite Hfind, Hse.
Qed.

Lemma on_request_other :
  m_side_effect m = SE_Other ->
  _on_request request s = (refused request, recorded request (refused request) s).
Proof.
  intros Hse. unfold _on_request, bind, _get_response.
  by rewrite Hfind, Hse.
Qed.

Lemma on_request_callable (f : Request -> Res PyVal) :
  m_side_effect m = SE_Callable f ->
  _on_request request s =
    match f (_from_prepared_request request) with
    | Ok (VResponse x) =>
        let r := Ok (_as_requests_response x request) in (r, recorded request r s)
    | Ok VNone => (refused request, recorded request (refused request) s)
    | Raise e => (Raise e, s)
    end.
Proof.
  intros Hse. unfold _on_request, bind, _get_response.
  rewrite Hfind, Hse.
  by destruct (f (_from_prepared_request request)) as [[|x]|e].
Qed.

Lemma on_request_iterator (remaining : list PyVal) :
  m_side_effect m = SE_Iterator remaining ->
  _on_request request s =
    match remaining with
    | [] => (Raise StopIteration, s)
    | VResponse x :: rest =>
        let r := Ok (_as_requests_response x request) in
        (r, recorded request r (advanced i m rest s))
    | VNone :: rest =>
        (refused request, recorded request (refused request) (advanced i m rest s))
    end.
Proof.
  intros Hse. unfold _on_request, bind, _get_response.
  rewrite Hfind, Hse.
  by destruct remaining as [|[|x] rest].
Qed.
End Matched.

(** Either the exception of [_get_response] leaves and nothing has
    changed, or one [Call] with the outcome is appended to a state that
    differs from [s] at most by the iterator that was advanced. *)
Lemma on_request_cases :
  let (r, s') := _on_request request s in
  if propagates request s then s' = s /\ exists e, r = Raise e
  else exists s1,
    s' = recorded request r s1 /\
    (r = refused request \/ exists x, r = Ok x) /\
    _calls s1 = _calls s /\
    _patcher s1 = _patcher s /\ Session_send s1 = Session_send s /\
    (s1 = s \/
     exists i m item rest,
       _find_match s request = Some (i, m) /\
       m_side_effect m = SE_Iterator (item :: rest) /\
       s1 = advanced i m rest s).
Proof.
  unfold propagates.
  destruct (_find_match s request) as [[i m]|] eqn:Hf.
  - destruct (m_side_effect m) as [|f|remaining|] eqn:Hse.
    + rewrite (on_request_fixed i m Hf Hse). simpl.
      exists s. repeat split; eauto.
    + rewrite (on_request_callable i m Hf f Hse).
      destruct (f (_from_prepared_request request)) as [[|x]|e]; simpl;
        [exists s; repeat split; eauto .. | eauto].
    + rewrite (on_request_iterator i m Hf remaining Hse).
      destruct remaining as [|[|x] rest]; simpl; [eauto | |];
        (exists (advanced i m rest s); repeat split; eauto;
         right; eexists i, m, _, rest; by repeat split).
    + rewrite (on_request_other i m Hf Hse).
      exists s. repeat split; eauto.
  - rewrite (on_request_no_match Hf). exists s. repeat split; eauto.
Qed.
End Dispatch.

Lemma find_match_urls (s s' : RequestsMock) (request : PreparedRequest) :
  _urls s' = _urls s -> _find_match s' request = _find_match s request.
Proof. intros Hu. unfold _find_match. by rewrite Hu. Qed.

(** C2. A request that no registered dictionary matches: the dispatcher
    builds a [ConnectionError] whose message holds the request's url,
    appends the one [Call] (request, error) to the recorder and raises
    that error; nothing else of the mock changes and the registry is not
    consulted again. *)
Theorem unmatched_request_refused `{UrlLib} (request : PreparedRequest)
    (s : RequestsMock) :
  _find_match s request = None ->
  exists msg s',
    _on_request request s = (Raise (ConnectionError msg), s') /\
    Str.contains (pr_url request) msg = true /\
    _calls s' =
      _calls s ++ [ {| c_request := request; c_response := inr (ConnectionError msg) |} ] /\
    length (_calls s') = S (length (_calls s)) /\
    _urls s' = _urls s /\ _patcher s' = _patcher s /\
    Session_send s' = Session_send s.
Proof.
  intros Hf. exists (error_msg request), (recorded request (refused request) s).
  split; [by apply on_request_no_match |].
  split; [exact (contains_suffix (pr_url request) "Connection refused: ") |].
  split; [done |]. split; [| done].
  simpl. rewrite length_app. simpl. lia.
Qed.

(** C9. A callback that returns [None]: the dispatch raises the same
    [ConnectionError] carrying the url and records the same [Call] as a
    dispatch of that request against an empty registry would, and the
    registry is left as it was. *)
Theorem callback_none_as_no_match `{UrlLib} (request : PreparedRequest)
    (s : RequestsMock) (i : nat) (m : Match) (f : Request -> Res PyVal) :
  _find_match s request = Some (i, m) ->
  m_side_effect m = SE_Callable f ->
  f (_from_prepared_request request) = Ok VNone ->
  _on_request request s =
    (Raise (ConnectionError (error_msg request)),
     set_calls (_calls s ++ [ {| c_request := request;
                                 c_response := inr (ConnectionError (error_msg request)) |} ]) s) /\
  _on_request request s =
    (let (r, s') := _on_request request (set_urls [] s) in (r, set_urls (_urls s) s')).
Proof.
  intros Hf Hse Hnone.
  rewrite (on_request_callable request s i m Hf f Hse), Hnone.
  split; [done |].
  rewrite (on_request_no_match request (set_urls [] s)) by done.
  by destruct s.
Qed.

(** C10. A dispatch that finds an exhausted iterator, or a callback that
    raises, lets that exception out and leaves the whole state of the mock
    as it was: no [Call] is appended. Conversely a dispatch that raises
    and has changed the recorder took the path of the [None] response: the
    exception is the dispatcher's [ConnectionError] and the one [Call]
    appended holds it. *)
Theorem propagated_failure_records_nothing `{UrlLib} (request : PreparedRequest)
    (s : RequestsMock) (i : nat) (m : Match) :
  _find_match s request = Some (i, m) ->
  (m_side_effect m = SE_Iterator [] \/
   exists f e, m_side_effect m = SE_Callable f /\
               f (_from_prepared_request request) = Raise e) ->
  (exists e, _on_request request s = (Raise e, s) /\
     (m_side_effect m = SE_Iterator [] -> e = StopIteration) /\
     (forall f e', m_side_effect m = SE_Callable f ->
        f (_from_prepared_request request) = Raise e' -> e = e')) /\
  (forall request' s0 e s',
     _on_request request' s0 = (Raise e, s') ->
     _calls s' <> _calls s0 ->
     e = ConnectionError (error_msg request') /\
     _calls s' = _calls s0 ++ [ {| c_request := request'; c_response := inr e |} ]).
Proof.
  intros Hf Hfail. split.
  - destruct Hfail as [Hse | (f & e & Hse & Hraise)].
    + exists StopIteration.
      rewrite (on_request_iterator request s i m Hf [] Hse).
      split; [done |]. split; [done |]. intros f e' Hse'. congruence.
    + exists e.
      rewrite (on_request_callable request s i m Hf f Hse), Hraise.
      split; [done |]. split; [congruence |].
      intros f' e' Hse' Hraise'. congruence.
  - intros request' s0 e s' Hrun Hcalls.
    pose proof (on_request_cases request' s0) as Hcases.
    rewrite Hrun in Hcases. destruct (propagates request' s0).
    + destruct Hcases as [-> _]. done.
    + destruct Hcases as (s1 & -> & Hr & Hc & _).
      destruct Hr as [Hr | [x Hr]]; [| discriminate Hr].
      injection Hr as ->. split; [done |]. simpl. by rewrite Hc.
Qed.

(* ===================================================================== *)
(** ** Runs of dispatches *)
(* ===================================================================== *)


Section Runs.
Context `{UrlLib}.

Lemma on_request_calls (request : PreparedRequest) (s : RequestsMock) :
  _calls (snd (_on_request request s)) =
  _calls s ++
    (if propagates request s then []
     else [call_of request (fst (_on_request request s))]).
Proof.
  pose proof (on_request_cases request s) as Hc.
  destruct (_on_request request s) as [r s'].
  destruct (propagates request s); simpl.
  - destruct Hc as [-> _]. by rewrite app_nil_r.
  - destruct Hc as (s1 & -> & _ & Hcalls & _). simpl. by rewrite Hcalls.
Qed.

Lemma on_request_patch (request : PreparedRequest) (s : RequestsMock) :
  _patcher (snd (_on_request request s)) = _patcher s /\
  Session_send (snd (_on_request request s)) = Session_send s.
Proof.
  pose proof (on_request_cases request s) as Hc.
  destruct (_on_request request s) as [r s'].
  destruct (propagates request s); simpl.
  - by destruct Hc as [-> _].
  - by destruct Hc as (s1 & -> & _ & _ & Hp & Hs & _).
Qed.

Lemma dispatch_all_cons (request : PreparedRequest)
    (rest : list PreparedRequest) (s : RequestsMock) :
  dispatch_all (request :: rest) s =
  (fst (_on_request request s) :: fst (dispatch_all rest (snd (_on_request request s))),
   snd (dispatch_all rest (snd (_on_request request s)))).
Proof.
  simpl. destruct (_on_request request s) as [r s1]. simpl.
  by destruct (dispatch_all rest s1).
Qed.



End Runs.


(** C8. A dictionary without [side_effect]: [_get_response] returns its
    stored [Response] as it is and changes nothing. For requests that
    resolve through it, every dispatch returns that [Response] put in
    transport shape and the registry is left as it was. Whatever the
    request, what is returned wraps the same raw response, built from
    the stored [Response] alone: its status, its body and the headers
    dictionary made of its content type and its added headers; its
    content has been read at once exactly when the stored [Response] is
    not streamed. Two requests so get responses that differ in nothing
    but the request and the url they are bound to. *)
Theorem fixed_response_reuse `{UrlLib} (s : RequestsMock) (i : nat) (m : Match)
    (requests : list PreparedRequest) :
  m_side_effect m = SE_None ->
  Forall (fun q => _find_match s q = Some (i, m)) requests ->
  (forall q s', _get_response (Some (i, m)) q s' = (Ok (VResponse (m_response m)), s')) /\
  fst (dispatch_all requests s) =
    (fun q => Ok (_as_requests_response (m_response m) q)) <$> requests /\
  _urls (snd (dispatch_all requests s)) = _urls s /\
  forall q,
    let r := _as_requests_response (m_response m) q in
    rr_status_code r = status (m_response m) /\
    rr_raw r = _as_http_response (m_response m) /\
    hr_status (rr_raw r) = status (m_response m) /\
    hr_body (rr_raw r) = body (m_response m) /\
    rr_content_read r = negb (stream (m_response m)) /\
    forall q',
      let r' := _as_requests_response (m_response m) q' in
      rr_status_code r' = rr_status_code r /\
      rr_raw r' = rr_raw r /\
      rr_content_read r' = rr_content_read r.
Proof.
  intros Hse Hall. split; [| split; [| split]].
  - intros q s'. unfold _get_response. by rewrite Hse.
  - revert s Hall. induction requests as [|q rest IH]; intros s Hall; [done |].
    inversion Hall as [|? ? Hq Hrest]; subst.
    rewrite dispatch_all_cons, (on_request_fixed q s i m Hq Hse).
    cbn [fst snd fmap list_fmap]. f_equal. apply IH.
    eapply Forall_impl; [exact Hrest |]. intros q' Hq'. by rewrite <- Hq'.
  - revert s Hall. induction requests as [|q rest IH]; intros s Hall; [done |].
    inversion Hall as [|? ? Hq Hrest]; subst.
    rewrite dispatch_all_cons, (on_request_fixed q s i m Hq Hse).
    cbn [fst snd]. rewrite IH; [done |].
    eapply Forall_impl; [exact Hrest |]. intros q' Hq'. by rewrite <- Hq'.
  - intros q. unfold _as_requests_response.
    destruct (stream (m_response m)); simpl; by repeat split.
Qed.

(* ===================================================================== *)
(** ** Response sequences *)
(* ===================================================================== *)

Lemma served_lookup (rs : list Response) (qs : list PreparedRequest)
    (k : nat) (q : PreparedRequest) :
  qs !! k = Some q ->
  served rs qs !! k =
    Some (match rs !! k with
          | Some r => Ok (_as_requests_response r q)
          | None => Raise StopIteration
          end).
Proof.
  revert rs k. induction qs as [|q0 qs IH]; intros rs k Hk; [done |].
  destruct k as [|k]; simpl in Hk.
  - injection Hk as ->. by destruct rs.
  - destruct rs as [|r rs]; simpl; by rewrite (IH _ _ Hk).
Qed.

Lemma satisfies_shape (meth url uq : string) (m m' : Match) :
  shape m = shape m' -> satisfies meth url uq m = satisfies meth url uq m'.
Proof. unfold shape, satisfies. intros [= -> -> ->]. done. Qed.

Lemma find_loop_shape (meth url uq : string) (l l' : list Match) (i : nat) :
  shape <$> l = shape <$> l' ->
  fst <$> find_loop meth url uq i l = fst <$> find_loop meth url uq i l'.
Proof.
  revert l' i. induction l as [|m l IH]; intros [|m' l'] i Hsh; try done.
  apply (f_equal head) in Hsh as Hm. apply (f_equal tail) in Hsh as Hl.
  simpl in Hm, Hl. assert (shape m = shape m') as Hm' by congruence.
  clear Hm. rename Hm' into Hm. simpl.
  rewrite (satisfies_shape _ _ _ m m' Hm).
  destruct (satisfies meth url uq m'); [done | by apply IH].
Qed.

Lemma via_shape (s s' : RequestsMock) (request : PreparedRequest) :
  shape <$> _urls s' = shape <$> _urls s -> via s' request = via s request.
Proof. intros Hsh. unfold via, _find_match. by apply find_loop_shape. Qed.

Section Sequences.
Context `{UrlLib}.

Lemma on_request_shape (q : PreparedRequest) (s : RequestsMock) :
  shape <$> _urls (snd (_on_request q s)) = shape <$> _urls s.
Proof.
  pose proof (on_request_cases q s) as Hc.
  destruct (_on_request q s) as [r s'].
  destruct (propagates q s); simpl.
  - by destruct Hc as [-> _].
  - destruct Hc as (s1 & -> & _ & _ & _ & _ & [-> | Hadv]); [done |].
    destruct Hadv as (i & m & item & rest & Hf & _ & ->). simpl.
    rewrite list_fmap_insert. apply list_insert_id.
    rewrite list_lookup_fmap, (find_match_in_range _ _ _ _ Hf). done.
Qed.

Lemma on_request_entry (q : PreparedRequest) (s : RequestsMock) (k : nat) :
  via s q <> Some k ->
  _urls (snd (_on_request q s)) !! k = _urls s !! k.
Proof.
  intros Hvia. pose proof (on_request_cases q s) as Hc.
  destruct (_on_request q s) as [r s'].
  destruct (propagates q s); simpl.
  - by destruct Hc as [-> _].
  - destruct Hc as (s1 & -> & _ & _ & _ & _ & [-> | Hadv]); [done |].
    destruct Hadv as (i & m & item & rest & Hf & _ & ->). simpl.
    apply list_lookup_insert_ne. intros ->.
    apply Hvia. unfold via. by rewrite Hf.
Qed.

(** The run, with the iterator at position [i] holding [rs]. *)
Lemma run_through (v : PreparedRequest -> option nat) (i : nat)
    (requests : list PreparedRequest) :
  forall (s : RequestsMock) (rs : list Response) (m : Match),
    (forall q, via s q = v q) ->
    _urls s !! i = Some m ->
    m_side_effect m = SE_Iterator (VResponse <$> rs) ->
    outcomes_through v i requests (fst (dispatch_all requests s)) =
    served rs (through v i requests).
Proof.
  induction requests as [|q rest IH]; intros s rs m Hv Hi Hse; [done |].
  rewrite dispatch_all_cons. cbn [fst outcomes_through].
  unfold through. rewrite filter_cons. fold (through v i rest).
  assert (forall q', via (snd (_on_request q s)) q' = v q') as Hv'.
  { intros q'. rewrite <- Hv. apply via_shape, on_request_shape. }
  destruct (decide (v q = Some i)) as [Hq | Hq].
  - rewrite <- Hv in Hq. unfold via in Hq.
    destruct (_find_match s q) as [[i' m']|] eqn:Hf; [| done].
    injection Hq as ->.
    pose proof (find_match_in_range _ _ _ _ Hf) as Hi'.
    rewrite Hi in Hi'. injection Hi' as <-.
    pose proof (on_request_iterator q s i m Hf _ Hse) as Hrun.
    destruct rs as [|r rs]; simpl in Hrun.
    + rewrite Hrun in *. simpl. f_equal. by apply (IH s [] m).
    + rewrite Hrun in *. simpl. f_equal.
      apply (IH _ rs (set_side_effect (SE_Iterator (VResponse <$> rs)) m));
        [done | | done].
      simpl. apply list_lookup_insert_eq. by eapply lookup_lt_Some.
  - simpl. apply (IH _ rs m); [done | | done].
    rewrite on_request_entry; [done |]. by rewrite Hv.
Qed.
End Sequences.

Lemma add_urls (meth u : string) (mq : bool) (se : SideEffectArg)
    (resp : Response) (s : RequestsMock) :
  add meth u mq se resp s =
  (Ok tt,
   set_urls (_urls s ++
     [ {| m_url := default_path u mq; m_method := meth;
          m_match_querystring := mq; m_side_effect := iter_of se;
          m_response := resp |} ]) s).
Proof. done. Qed.

(** C4. After [add] with the sequence [R1, ..., Rn] as [side_effect], take
    any run of dispatches and, in it, the dispatches that resolve through
    the dictionary just registered: the [k]-th of them returns [Rk] in
    transport shape while [k <= n], and every later one, the [(n+1)]-th
    first, ends with [StopIteration] as its outcome. *)
Theorem sequence_in_order `{UrlLib} (s0 : RequestsMock) (meth u : string)
    (mq : bool) (rs : list Response) (resp : Response)
    (requests : list PreparedRequest) :
  let s1 := snd (add meth u mq (ArgSequence (VResponse <$> rs)) resp s0) in
  let i := length (_urls s0) in
  let outs := outcomes_through (via s1) i requests (fst (dispatch_all requests s1)) in
  length outs = length (through (via s1) i requests) /\
  forall (k : nat) (q : PreparedRequest),
    through (via s1) i requests !! k = Some q ->
    outs !! k =
      Some (match rs !! k with
            | Some r => Ok (_as_requests_response r q)
            | None => Raise StopIteration
            end).
Proof.
  intros s1 i outs.
  assert (outs = served rs (through (via s1) i requests)) as ->.
  { unfold outs, s1. rewrite add_urls. cbn [snd].
    eapply run_through;
      [done
      | simpl; unfold i; rewrite lookup_app_r by lia;
        rewrite Nat.sub_diag; reflexivity
      | done]. }
  split.
  - generalize (through (via s1) i requests). intros qs. clear.
    revert rs. induction qs as [|q qs IH]; intros rs; [done |].
    destruct rs; simpl; by rewrite IH.
  - intros k q Hk. by apply served_lookup.
Qed.

(* ===================================================================== *)
(** ** Registration: the default path *)
(* ===================================================================== *)

Lemma count_app (c : ascii) (a b : string) :
  Str.count c (a +:+ b) = Str.count c a + Str.count c b.
Proof. induction a as [|x a IH]; simpl; [done | rewrite IH; lia]. Qed.

Lemma find_match_appended (s : RequestsMock) (m : Match) (q : PreparedRequest) :
  via s q = None -> sat q m = true ->
  _find_match (set_urls (_urls s ++ [m]) s) q = Some (length (_urls s), m).
Proof.
  intros Hvia Hsat. unfold _find_match. simpl.
  rewrite find_loop_skip.
  - simpl. fold (sat q m). by rewrite Hsat.
  - apply find_match_None. unfold via in Hvia.
    by destruct (_find_match s q).
Qed.

Lemma replace_first_at (c : ascii) (new h t : string) :
  Str.count c h = 0 ->
  Str.replace_first c new (h +:+ String c t) = h +:+ new +:+ t.
Proof.
  induction h as [|x h IH]; simpl.
  - intros _. by rewrite Ascii.eqb_refl.
  - destruct (Ascii.eqb x c); [done |]. intros Hc. by rewrite IH.
Qed.

(** With query-string matching, a url with two ['/'] that has a ['?']
    gets its ['/'] before the first ['?']. *)
Lemma default_path_before_query (h t : string) :
  Str.count "/" (h +:+ String "?" t) = 2 ->
  Str.count "?" h = 0 ->
  default_path (h +:+ String "?" t) true = h +:+ "/?" +:+ t.
Proof.
  intros Hslash Hh. unfold default_path. rewrite Hslash. simpl.
  by apply replace_first_at.
Qed.

(** C6, at the registration where the code departs from it. A url
    with exactly two ['/'] and no ['?'], a bare host, gets its default
    path when it is registered without query-string matching: [add]
    stores it with a ['/'] at its end. Registered with query-string
    matching it gets none: [replace] finds no ['?'], the url is stored as
    it was given, still with two ['/'], and since the stored url is
    looked for at the start of the request's url, every request with the
    registered method whose url continues the bare host passes the test,
    the host followed by ['/'] as well as another host that starts with
    the same letters. *)
Theorem bare_host_query_mode_no_default_path (s : RequestsMock) (meth u : string)
    (se : SideEffectArg) (resp : Response) :
  Str.count "/" u = 2 ->
  Str.count "?" u = 0 ->
  let plain := stored meth u false se resp in
  let query := stored meth u true se resp in
  let s1 := snd (add meth u true se resp s) in
  m_url plain = u +:+ "/" /\
  _urls s1 = _urls s ++ [query] /\
  m_url query = u /\
  Str.count "/" (m_url query) = 2 /\
  forall q t, pr_method q = meth -> pr_url q = u +:+ t ->
    sat q query = true /\
    (via s q = None -> _find_match s1 q = Some (length (_urls s), query)).
Proof.
  intros Hslash Hq plain query s1.
  assert (m_url query = u) as Hurl.
  { simpl. unfold default_path. rewrite Hslash. simpl.
    by apply replace_first_no_needle. }
  split; [simpl; unfold default_path; by rewrite Hslash |].
  split; [done |]. split; [done |]. split; [by rewrite Hurl |].
  intros q t Hmeth Hqurl.
  assert (sat q query = true) as Hsat.
  { unfold sat. apply satisfies_iff. split; [done |].
    change (m_match_querystring query) with true. cbv iota.
    rewrite Hurl, Hqurl. apply startswith_iff. by exists t. }
  split; [done |]. intros Hvia. by apply find_match_appended.
Qed.

(* ===================================================================== *)
(** ** The session controller *)
(* ===================================================================== *)


(* ===================================================================== *)
(** ** Worked cases *)
(* ===================================================================== *)

Import Cases.

Example first_of_two_wins :
  fst (_on_request (req "GET" "http://x.test/a?k=v") two_overlapping) =
  Ok (_as_requests_response (text "A" 200) (req "GET" "http://x.test/a?k=v")).
Proof. reflexivity. Qed.

Example query_prefix_matches :
  sat (req "GET" "http://x.test/?a=1&b=2") with_query = true /\
  sat (req "GET" "http://x.test/?a=2") with_query = false /\
  sat (req "POST" "http://x.test/?a=1") with_query = false.
Proof. by vm_compute. Qed.

Example sequence_then_exhausted :
  fst (dispatch_all [q_seq; q_seq; q_seq] two_in_sequence) =
    [ Ok (_as_requests_response (text "R1" 200) q_seq);
      Ok (_as_requests_response (text "R2" 404) q_seq);
      Raise StopIteration ] /\
  length (_calls (snd (dispatch_all [q_seq; q_seq; q_seq] two_in_sequence))) = 2.
Proof. by vm_compute. Qed.

Example callback_sees_method :
  let s := after (add "POST" "http://x.test/c" false
                    (ArgCallable not_found_unless_get) (text "" 200)) init in
  rr_status_code <$>
    (match fst (_on_request (req "POST" "http://x.test/c") s) with
     | Ok r => Some r
     | Raise _ => None
     end) = Some 404%Z.
Proof. reflexivity. Qed.

Example callback_error_leaves :
  _on_request (req "GET" "http://x.test/c") raises_error =
  (Raise (UserError "boom"), raises_error).
Proof. reflexivity. Qed.

(** Indexing of the recorder, from both ends. *)
Example recorder_indexing :
  let s := snd (dispatch_all [req "GET" "http://x.test/a"; req "GET" "http://x.test/b"]
                  two_overlapping) in
  CallList.len (_calls s) = 2%Z /\
  (c_request <$> CallList.getitem (_calls s) 1) = Some (req "GET" "http://x.test/b") /\
  CallList.getitem (_calls s) (-2) = CallList.getitem (_calls s) 0 /\
  CallList.getitem (_calls s) 2 = None /\
  CallList.getitem (_calls s) (-3) = None.
Proof. by vm_compute. Qed.



Lemma unmatched_request_refused_witness :
  _find_match two_overlapping (req "POST" "http://x.test/a") = None /\
  exists msg s',
    _on_request (req "POST" "http://x.test/a") two_overlapping =
      (Raise (ConnectionError msg), s') /\
    Str.contains "http://x.test/a" msg = true /\
    length (_calls s') = 1.
Proof.
  split; [reflexivity |].
  destruct (unmatched_request_refused (req "POST" "http://x.test/a")
              two_overlapping eq_refl)
    as (msg & s' & Hrun & Hmsg & _ & Hlen & _).
  exists msg, s'. split; [exact Hrun |]. split; [exact Hmsg | exact Hlen].
Defined.

Lemma url_match_rule_witness :
  pr_method (req "GET" "http://x.test/?a=1&b=2") = m_method with_query /\
  (sat (req "GET" "http://x.test/?a=1&b=2") with_query = true <->
   exists t, "http://x.test/?a=1&b=2" = "http://x.test/?a=1" +:+ t).
Proof.
  split; [reflexivity |].
  exact (proj2 (proj1
    (url_match_rule (req "GET" "http://x.test/?a=1&b=2") with_query eq_refl)
    eq_refl)).
Defined.


Lemma bare_host_query_mode_no_default_path_witness :
  Str.count "/" "http://x.test" = 2 /\
  Str.count "?" "http://x.test" = 0 /\
  m_url (stored "GET" "http://x.test" true ArgNone (text "" 200)) = "http://x.test" /\
  _find_match (after (add "GET" "http://x.test" true ArgNone (text "" 200)) init)
    (req "GET" "http://x.testing.evil/") =
    Some (0, stored "GET" "http://x.test" true ArgNone (text "" 200)) /\
  _find_match (after (add "GET" "http://x.test" false ArgNone (text "" 200)) init)
    (req "GET" "http://x.testing.evil/") = None.
Proof.
  split; [reflexivity |]. split; [reflexivity |].
  destruct (bare_host_query_mode_no_default_path init "GET" "http://x.test"
              ArgNone (text "" 200) eq_refl eq_refl)
    as (_ & _ & Hurl & _ & Hmatch).
  split; [exact Hurl |]. split; [| reflexivity].
  exact (proj2 (Hmatch (req "GET" "http://x.testing.evil/") "ing.evil/"
                  eq_refl eq_refl) eq_refl).
Defined.


Lemma fixed_response_reuse_witness :
  let m := stored "GET" "http://x.test/a" false ArgNone (text "A" 200) in
  let q := req "GET" "http://x.test/a" in
  m_side_effect m = SE_None /\
  Forall (fun q => _find_match two_overlapping q = Some (0, m)) [q; q; q] /\
  fst (dispatch_all [q; q; q] two_overlapping) =
    (fun q => Ok (_as_requests_response (text "A" 200) q)) <$> [q; q; q] /\
  _urls (snd (dispatch_all [q; q; q] two_overlapping)) = _urls two_overlapping.
Proof.
  intros m q. split; [reflexivity |].
  assert (Forall (fun q => _find_match two_overlapping q = Some (0, m)) [q; q; q])
    as Hall by (repeat constructor).
  split; [exact Hall |].
  destruct (fixed_response_reuse two_overlapping 0 m [q; q; q] eq_refl Hall)
    as (_ & Houts & Hurls & _).
  split; [exact Houts | exact Hurls].
Defined.

Lemma callback_none_as_no_match_witness :
  let q := req "GET" "http://x.test/c" in
  let m := stored "GET" "http://x.test/c" false
             (ArgCallable (fun _ => Ok VNone)) (text "" 200) in
  _find_match answers_none q = Some (0, m) /\
  _on_request q answers_none =
    (Raise (ConnectionError "Connection refused: http://x.test/c"),
     set_calls [ {| c_request := q;
                    c_response := inr (ConnectionError "Connection refused: http://x.test/c") |} ]
       answers_none).
Proof.
  intros q m. split; [reflexivity |].
  exact (proj1 (callback_none_as_no_match q answers_none 0 m (fun _ => Ok VNone)
                  eq_refl eq_refl eq_refl)).
Defined.

Lemma propagated_failure_records_nothing_witness :
  let m := stored "GET" "http://x.test/s" false (ArgSequence []) (text "" 200) in
  _find_match exhausted q_seq = Some (0, m) /\
  m_side_effect m = SE_Iterator [] /\
  _on_request q_seq exhausted = (Raise StopIteration, exhausted).
Proof.
  intros m. split; [reflexivity |]. split; [reflexivity |].
  destruct (proj1 (propagated_failure_records_nothing q_seq exhausted 0 m
                     eq_refl (or_introl eq_refl)))
    as (e & Hrun & He & _).
  rewrite Hrun. f_equal. f_equal. exact (He eq_refl).
Defined.

(* ===================================================================== *)
(** ** The call recorder *)
(* ===================================================================== *)

Lemma getitem_of_nat (cs : list Call) (k : nat) :
  CallList.getitem cs (Z.of_nat k) = cs !! k.
Proof.
  unfold CallList.getitem.
  destruct (Z.leb_spec 0 (Z.of_nat k)); [| lia]. by rewrite Nat2Z.id.
Qed.

Lemma getitem_last (cs : list Call) (c : Call) :
  CallList.getitem (cs ++ [c]) (-1) = Some c.
Proof.
  unfold CallList.getitem, CallList.len. rewrite length_app. simpl.
  destruct (Z.leb_spec (- Z.of_nat (length cs + 1)) (-1)); [| lia].
  replace (Z.to_nat (Z.of_nat (length cs + 1) + -1)) with (length cs + 0) by lia.
  by rewrite lookup_app_r, Nat.add_comm, Nat.add_sub by lia.
Qed.

(** X1. A call stored at position [k] is read at index [k] and, counting
    from the end, at index [k - len]. *)
Theorem getitem_both_ends (cs : list Call) (k : nat) (c : Call) :
  cs !! k = Some c ->
  CallList.getitem cs (Z.of_nat k) = Some c /\
  CallList.getitem cs (Z.of_nat k - CallList.len cs) = Some c.
Proof.
  intros Hk. pose proof (lookup_lt_Some _ _ _ Hk) as Hlt.
  split; [by rewrite getitem_of_nat |].
  unfold CallList.getitem, CallList.len.
  destruct (Z.leb_spec 0 (Z.of_nat k - Z.of_nat (length cs))); [lia |].
  destruct (Z.leb_spec (- Z.of_nat (length cs))
              (Z.of_nat k - Z.of_nat (length cs))); [| lia].
  replace (Z.to_nat (Z.of_nat (length cs) + (Z.of_nat k - Z.of_nat (length cs))))
    with k by lia.
  exact Hk.
Qed.

Lemma getitem_both_ends_witness :
  Edge.two_calls !! 1 = Some (call_of (req "GET" "http://x.test/b")
                                (refused (req "GET" "http://x.test/b"))) /\
  CallList.getitem Edge.two_calls (-1) =
    Some (call_of (req "GET" "http://x.test/b") (refused (req "GET" "http://x.test/b"))).
Proof.
  split; [reflexivity |].
  exact (proj2 (getitem_both_ends Edge.two_calls 1 _ eq_refl)).
Defined.

(** X2. An index reads a call exactly when it lies in [-len, len); any
    other index is the [IndexError] of the list. *)
Theorem getitem_in_range (cs : list Call) (idx : Z) :
  is_Some (CallList.getitem cs idx) <->
  (- CallList.len cs <= idx < CallList.len cs)%Z.
Proof.
  unfold CallList.getitem, CallList.len.
  destruct (Z.leb_spec 0 idx).
  - rewrite lookup_lt_is_Some. lia.
  - destruct (Z.leb_spec (- Z.of_nat (length cs)) idx).
    + rewrite lookup_lt_is_Some. lia.
    + split; [intros [c Hc]; discriminate Hc | lia].
Qed.

(** X3. [CallList.add] puts the new call at the end: the length grows by
    one, index [-1] reads the pair just added, and what was recorded
    before is read at the same indices. *)
Theorem calllist_add_last (q : PreparedRequest) (r : RequestsResponse + Exn)
    (s : RequestsMock) :
  let s' := snd (CallList.add q r s) in
  fst (CallList.add q r s) = Ok tt /\
  CallList.len (_calls s') = (CallList.len (_calls s) + 1)%Z /\
  CallList.getitem (_calls s') (-1) = Some {| c_request := q; c_response := r |} /\
  (forall (k : nat) (c : Call),
     _calls s !! k = Some c -> CallList.getitem (_calls s') (Z.of_nat k) = Some c) /\
  _urls s' = _urls s.
Proof.
  simpl. split; [done |]. split; [| split; [| split; [| done]]].
  - unfold CallList.len. rewrite length_app. simpl. lia.
  - apply getitem_last.
  - intros k c Hk. rewrite getitem_of_nat. by apply lookup_app_l_Some.
Qed.

(* ===================================================================== *)
(** ** Registration and reset *)
(* ===================================================================== *)

Lemma find_loop_app_Some (meth url uq : string) (l l' : list Match) (i : nat)
    (x : nat * Match) :
  find_loop meth url uq i l = Some x ->
  find_loop meth url uq i (l ++ l') = Some x.
Proof.
  revert i. induction l as [|m l IH]; intros i; simpl; [done |].
  destruct (satisfies meth url uq m); [done | apply IH].
Qed.

Lemma find_match_after_add (s : RequestsMock) (meth u : string) (mq : bool)
    (se : SideEffectArg) (resp : Response) (q : PreparedRequest)
    (i : nat) (m : Match) :
  _find_match s q = Some (i, m) ->
  _find_match (snd (add meth u mq se resp s)) q = Some (i, m).
Proof. unfold _find_match. simpl. apply find_loop_app_Some. Qed.

Lemma count_slash_replace_first (s : string) :
  Str.count "?" s <> 0 ->
  Str.count "/" (Str.replace_first "?" "/?" s) = S (Str.count "/" s).
Proof.
  induction s as [|a s IH]; simpl; [done |].
  destruct (Ascii.eqb_spec a "?") as [-> | Hne]; [done |].
  intros Hq. simpl. rewrite IH by done. lia.
Qed.

Lemma count_qmark_default_path (u : string) (mq : bool) :
  Str.count "?" u <> 0 -> Str.count "?" (default_path u mq) <> 0.
Proof.
  intros Hq. unfold default_path.
  destruct (Str.count "/" u =? 2); [| done]. destruct mq.
  - clear -Hq. induction u as [|a u IH]; simpl in *; [done |].
    destruct (Ascii.eqb_spec a "?") as [-> | Hne]; [done |].
    simpl. destruct (Ascii.eqb_spec a "?"); [done | by apply IH].
  - rewrite count_app. lia.
Qed.

(** X4. [reset] empties the registry and the recorder and leaves the
    patcher and the hook alone; a second [reset] changes nothing; and any
    request dispatched next is refused, its call being the only one
    recorded. *)
Theorem reset_then_refused `{UrlLib} (s : RequestsMock) (q : PreparedRequest) :
  let s0 := snd (reset s) in
  fst (reset s) = Ok tt /\
  _urls s0 = [] /\ _calls s0 = [] /\
  _patcher s0 = _patcher s /\ Session_send s0 = Session_send s /\
  reset s0 = (Ok tt, s0) /\
  fst (_on_request q s0) = Raise (ConnectionError (error_msg q)) /\
  _calls (snd (_on_request q s0)) =
    [ {| c_request := q; c_response := inr (ConnectionError (error_msg q)) |} ].
Proof.
  intros s0.
  assert (_on_request q s0 = (refused q, recorded q (refused q) s0)) as Hrun
    by (by apply on_request_no_match).
  rewrite Hrun. by repeat split.
Qed.

(** X5. A later [add] never changes how a request that already had a
    match is resolved: same dictionary, same position. It leaves the
    recorder, the patcher and the hook as they were, and the dictionaries
    registered before stay in front, unchanged. *)
Theorem add_keeps_earlier_matches (s : RequestsMock) (meth u : string) (mq : bool)
    (se : SideEffectArg) (resp : Response) (q : PreparedRequest)
    (i : nat) (m : Match) :
  _find_match s q = Some (i, m) ->
  let s1 := snd (add meth u mq se resp s) in
  _find_match s1 q = Some (i, m) /\
  (forall k x, _urls s !! k = Some x -> _urls s1 !! k = Some x) /\
  length (_urls s1) = S (length (_urls s)) /\
  _calls s1 = _calls s /\ _patcher s1 = _patcher s /\
  Session_send s1 = Session_send s.
Proof.
  intros Hf s1. split; [by apply find_match_after_add |].
  split; [intros k x Hk; simpl; by apply lookup_app_l_Some |].
  split; [| done]. simpl. rewrite length_app. simpl. lia.
Qed.

Lemma add_keeps_earlier_matches_witness :
  _find_match two_overlapping (req "GET" "http://x.test/a") =
    Some (0, stored "GET" "http://x.test/a" false ArgNone (text "A" 200)) /\
  _find_match
    (after (add "GET" "http://x.test/a" true ArgNone (text "C" 500)) two_overlapping)
    (req "GET" "http://x.test/a") =
    Some (0, stored "GET" "http://x.test/a" false ArgNone (text "A" 200)).
Proof.
  split; [reflexivity |].
  exact (proj1 (add_keeps_earlier_matches two_overlapping "GET" "http://x.test/a"
                  true ArgNone (text "C" 500) (req "GET" "http://x.test/a") 0 _ eq_refl)).
Defined.

(** X6. Giving a url its default path twice is giving it once: what
    [add] stores would be stored unchanged if it were registered again. *)
Theorem default_path_idempotent (u : string) (mq : bool) :
  default_path (default_path u mq) mq = default_path u mq.
Proof.
  unfold default_path at 2.
  destruct (Nat.eqb_spec (Str.count "/" u) 2) as [Hs | Hs].
  - destruct mq.
    + destruct (Nat.eq_dec (Str.count "?" u) 0) as [Hq | Hq].
      * rewrite replace_first_no_needle by done.
        unfold default_path. rewrite Hs. simpl.
        by rewrite replace_first_no_needle.
      * unfold default_path. by rewrite count_slash_replace_first, Hs.
    + unfold default_path. by rewrite count_app, Hs.
  - unfold default_path. by destruct (Nat.eqb_spec (Str.count "/" u) 2).
Qed.

(** X7. A url registered without query-string matching that holds a
    ['?'] is matched by no request at all: the matcher compares it with
    the request's url cut at its first ['?']. *)
Theorem query_in_plain_pattern_never_matches (meth u : string)
    (se : SideEffectArg) (resp : Response) (q : PreparedRequest) :
  Str.count "?" u <> 0 ->
  sat q (stored meth u false se resp) = false /\
  forall s, via s q = None -> _find_match (snd (add meth u false se resp s)) q = None.
Proof.
  intros Hq.
  assert (sat q (stored meth u false se resp) = false) as Hsat.
  { destruct (sat q (stored meth u false se resp)) eqn:Hsat; [| done].
    apply satisfies_iff in Hsat as [_ Hsat]. simpl in Hsat.
    symmetry in Hsat. apply split_head_spec in Hsat as [Hc _].
    by apply (count_qmark_default_path u false) in Hq. }
  split; [done |]. intros s Hvia. apply find_match_None.
  intros m. simpl. rewrite elem_of_app, list_elem_of_singleton.
  intros [Hm | ->]; [| exact Hsat].
  unfold via in Hvia. destruct (_find_match s q) eqn:Hf; [done |].
  by apply (proj1 (find_match_None s q) Hf).
Qed.

Lemma query_in_plain_pattern_never_matches_witness :
  Str.count "?" "http://x.test/a?b=1" <> 0 /\
  _find_match (after (add "GET" "http://x.test/a?b=1" false ArgNone (text "" 200)) init)
    (req "GET" "http://x.test/a?b=1") = None.
Proof.
  split; [discriminate |].
  exact (proj2 (query_in_plain_pattern_never_matches "GET" "http://x.test/a?b=1"
                  ArgNone (text "" 200) (req "GET" "http://x.test/a?b=1")
                  ltac:(discriminate)) init eq_refl).
Defined.

(* ===================================================================== *)
(** ** Matching and the url of the request *)
(* ===================================================================== *)

Lemma find_loop_ext (meth url uq meth' url' uq' : string) (l : list Match) (i : nat) :
  (forall m, m ∈ l -> satisfies meth url uq m = satisfies meth' url' uq' m) ->
  find_loop meth url uq i l = find_loop meth' url' uq' i l.
Proof.
  revert i. induction l as [|m l IH]; intros i Hext; simpl; [done |].
  rewrite (Hext m) by left.
  destruct (satisfies meth' url' uq' m); [done |].
  apply IH. intros m' Hm'. apply Hext. by right.
Qed.

(** X8. A url registered with a fixed response, then requested: when no
    earlier registration matches, a request with the registered method
    whose url is the stored url followed by nothing or by a query string
    (without query-string matching), or by any text (with it), is
    answered with the registered response in transport shape, and that
    answer is the call recorded. *)
Theorem registered_response_served `{UrlLib} (s : RequestsMock) (meth u : string)
    (mq : bool) (resp : Response) (q : PreparedRequest) (rest : string) :
  via s q = None ->
  pr_method q = meth ->
  pr_url q = default_path u mq +:+ rest ->
  (mq = false ->
     Str.count "?" u = 0 /\ (rest = "" \/ exists r, rest = String "?" r)) ->
  let s1 := snd (add meth u mq ArgNone resp s) in
  fst (_on_request q s1) = Ok (_as_requests_response resp q) /\
  _calls (snd (_on_request q s1)) =
    _calls s ++ [ {| c_request := q;
                     c_response := inl (_as_requests_response resp q) |} ] /\
  _urls (snd (_on_request q s1)) = _urls s1.
Proof.
  intros Hvia Hmeth Hurl Hplain s1.
  assert (sat q (stored meth u mq ArgNone resp) = true) as Hsat.
  { apply satisfies_iff. split; [done |]. simpl. destruct mq.
    - apply startswith_iff. by exists rest.
    - destruct (Hplain eq_refl) as [Hq Hrest].
      symmetry. apply split_head_spec. split.
      + unfold default_path. destruct (Str.count "/" u =? 2); [| done].
        rewrite count_app, Hq. done.
      + by exists rest. }
  pose proof (find_match_appended s _ q Hvia Hsat) as Hf.
  change (set_urls (_urls s ++ [stored meth u mq ArgNone resp]) s) with s1 in Hf.
  by rewrite (on_request_fixed q s1 _ _ Hf eq_refl).
Qed.

Lemma registered_response_served_witness :
  let q := req "GET" "http://x.test/?page=2" in
  via init q = None /\
  pr_url q = default_path "http://x.test" false +:+ "?page=2" /\
  fst (_on_request q (after (add "GET" "http://x.test" false ArgNone (text "home" 200)) init)) =
    Ok (_as_requests_response (text "home" 200) q).
Proof.
  intros q. split; [reflexivity |]. split; [reflexivity |].
  exact (proj1 (registered_response_served init "GET" "http://x.test" false
                  (text "home" 200) q "?page=2" eq_refl eq_refl eq_refl
                  (fun _ => conj eq_refl (or_intror (ex_intro _ "page=2" eq_refl))))).
Defined.

(** X9. In a registry where nothing asks for query-string matching, two
    requests with one method whose urls agree up to their first ['?']
    resolve through the same dictionary: the query string plays no part. *)
Theorem query_string_ignored (s : RequestsMock) (q q' : PreparedRequest) :
  (forall m, m ∈ _urls s -> m_match_querystring m = false) ->
  pr_method q = pr_method q' ->
  Str.split_head "?" (pr_url q) = Str.split_head "?" (pr_url q') ->
  _find_match s q = _find_match s q'.
Proof.
  intros Hplain Hmeth Hurl. unfold _find_match. apply find_loop_ext.
  intros m Hm. unfold satisfies. by rewrite Hmeth, Hurl, (Hplain m Hm).
Qed.

Lemma query_string_ignored_witness :
  (forall m, m ∈ _urls two_overlapping -> m_match_querystring m = false) /\
  _find_match two_overlapping (req "GET" "http://x.test/a?x=1") =
  _find_match two_overlapping (req "GET" "http://x.test/a?y=2&z=3").
Proof.
  assert (forall m, m ∈ _urls two_overlapping -> m_match_querystring m = false)
    as Hplain.
  { intros m Hm. apply elem_of_cons in Hm as [-> | Hm]; [reflexivity |].
    apply elem_of_cons in Hm as [-> | Hm]; [reflexivity |].
    by apply elem_of_nil in Hm. }
  split; [exact Hplain |].
  exact (query_string_ignored two_overlapping (req "GET" "http://x.test/a?x=1")
           (req "GET" "http://x.test/a?y=2&z=3") Hplain eq_refl eq_refl).
Defined.

(** X10. With query-string matching the stored url is a prefix to find:
    a dictionary that passes the test for a request passes it for every
    request with that method whose url continues the first one, further
    parameters or a longer value alike. *)
Theorem longer_url_still_matches (q q' : PreparedRequest) (m : Match) (t : string) :
  m_match_querystring m = true ->
  pr_method q' = pr_method q ->
  pr_url q' = pr_url q +:+ t ->
  sat q m = true ->
  sat q' m = true.
Proof.
  intros Hmq Hmeth Hurl Hsat. apply satisfies_iff in Hsat as [Hm Hpre].
  apply satisfies_iff. rewrite Hmq in *. split; [congruence |].
  apply startswith_iff in Hpre as [t0 Ht0]. apply startswith_iff.
  exists (t0 +:+ t). rewrite Hurl, Ht0.
  clear. induction (m_url m) as [|a p IH]; simpl; [done | by rewrite IH].
Qed.

Lemma longer_url_still_matches_witness :
  sat (req "GET" "http://x.test/?a=1") with_query = true /\
  sat (req "GET" "http://x.test/?a=10&b=2") with_query = true.
Proof.
  split; [reflexivity |].
  exact (longer_url_still_matches (req "GET" "http://x.test/?a=1")
           (req "GET" "http://x.test/?a=10&b=2") with_query "0&b=2"
           eq_refl eq_refl eq_refl eq_refl).
Defined.

(* ===================================================================== *)
(** ** Edges of the dispatcher *)
(* ===================================================================== *)

Lemma on_request_response (q : PreparedRequest) (s : RequestsMock) `{UrlLib}
    (r : RequestsResponse) (s' : RequestsMock) :
  _on_request q s = (Ok r, s') ->
  exists x, r = _as_requests_response x q.
Proof.
  destruct (_find_match s q) as [[i m]|] eqn:Hf.
  - destruct (m_side_effect m) as [|f|remaining|] eqn:Hse.
    + rewrite (on_request_fixed q s i m Hf Hse). intros [= <- _]. eauto.
    + rewrite (on_request_callable q s i m Hf f Hse).
      destruct (f (_from_prepared_request q)) as [[|x]|e]; try done.
      intros [= <- _]. eauto.
    + rewrite (on_request_iterator q s i m Hf remaining Hse).
      destruct remaining as [|[|x] rest]; try done. intros [= <- _]. eauto.
    + by rewrite (on_request_other q s i m Hf Hse).
  - by rewrite (on_request_no_match q s Hf).
Qed.

(** X12. A [side_effect] that is neither callable nor an iterator (nor
    [None]) yields no response: the request is refused as an unregistered
    one is, with its call recorded, and the fixed response of the
    dictionary is not used. *)
Theorem unusable_side_effect_refused `{UrlLib} (q : PreparedRequest)
    (s : RequestsMock) (i : nat) (m : Match) :
  _find_match s q = Some (i, m) ->
  m_side_effect m = SE_Other ->
  fst (_on_request q s) = Raise (ConnectionError (error_msg q)) /\
  _calls (snd (_on_request q s)) =
    _calls s ++ [ {| c_request := q; c_response := inr (ConnectionError (error_msg q)) |} ] /\
  _urls (snd (_on_request q s)) = _urls s.
Proof. intros Hf Hse. by rewrite (on_request_other q s i m Hf Hse). Qed.

Lemma unusable_side_effect_refused_witness :
  let q := req "GET" "http://x.test/o" in
  _find_match Edge.unusable q =
    Some (0, stored "GET" "http://x.test/o" false ArgOther (text "" 200)) /\
  fst (_on_request q Edge.unusable) =
    Raise (ConnectionError "Connection refused: http://x.test/o").
Proof.
  intros q. split; [reflexivity |].
  exact (proj1 (unusable_side_effect_refused q Edge.unusable 0 _ eq_refl eq_refl)).
Defined.

(** X13. A [None] inside a response sequence is consumed like any item:
    the request that reaches it is refused and recorded, the iterator has
    moved on, and the next request through the dictionary gets the item
    after it. *)
Theorem none_item_consumed `{UrlLib} (q : PreparedRequest) (s : RequestsMock)
    (i : nat) (m : Match) (rest : list PyVal) :
  _find_match s q = Some (i, m) ->
  m_side_effect m = SE_Iterator (VNone :: rest) ->
  let s' := snd (_on_request q s) in
  fst (_on_request q s) = Raise (ConnectionError (error_msg q)) /\
  _calls s' =
    _calls s ++ [ {| c_request := q; c_response := inr (ConnectionError (error_msg q)) |} ] /\
  _find_match s' q = Some (i, set_side_effect (SE_Iterator rest) m) /\
  forall x rest', rest = VResponse x :: rest' ->
    fst (_on_request q s') = Ok (_as_requests_response x q).
Proof.
  intros Hf Hse s'.
  pose proof (on_request_iterator q s i m Hf _ Hse) as Hrun. simpl in Hrun.
  assert (_find_match s' q = Some (i, set_side_effect (SE_Iterator rest) m)) as Hf'.
  { apply find_match_Some in Hf as (Hi & Hsat & Hfirst).
    pose proof (lookup_lt_Some _ _ _ Hi) as Hlt.
    apply find_match_Some. unfold s'. rewrite Hrun. simpl.
    split; [by apply list_lookup_insert_eq |]. split.
    - unfold sat. by rewrite (satisfies_shape _ _ _ _ m).
    - intros j m' Hj Hm'. rewrite list_lookup_insert_ne in Hm' by lia.
      by apply (Hfirst j). }
  unfold s' in *. rewrite Hrun in *. cbn [fst snd] in *.
  split; [done |]. split; [done |]. split; [done |].
  intros x rest' ->.
  by rewrite (on_request_iterator q _ i _ Hf' _ eq_refl).
Qed.

Lemma none_item_consumed_witness :
  let q := req "GET" "http://x.test/n" in
  _find_match Edge.none_first q =
    Some (0, stored "GET" "http://x.test/n" false
               (ArgSequence [VNone; VResponse (text "late" 200)]) (text "" 200)) /\
  fst (dispatch_all [q; q] Edge.none_first) =
    [ Raise (ConnectionError "Connection refused: http://x.test/n");
      Ok (_as_requests_response (text "late" 200) q) ].
Proof.
  intros q. split; [reflexivity |].
  destruct (none_item_consumed q Edge.none_first 0 _ [VResponse (text "late" 200)]
              eq_refl eq_refl) as (H1 & _ & _ & H2).
  rewrite dispatch_all_cons, dispatch_all_cons, H1, (H2 _ [] eq_refl).
  reflexivity.
Defined.

(** X14. What a dispatch never does, whatever its outcome: the registry
    keeps its length, every dictionary keeps its url, method, query flag
    and fixed response, every request resolves through the same position
    as before, a dictionary the request did not resolve through is
    untouched, and the patcher and the hook stay as they were. *)
Theorem dispatch_keeps_registry `{UrlLib} (q : PreparedRequest) (s : RequestsMock) :
  let s' := snd (_on_request q s) in
  length (_urls s') = length (_urls s) /\
  shape <$> _urls s' = shape <$> _urls s /\
  m_response <$> _urls s' = m_response <$> _urls s /\
  (forall q', via s' q' = via s q') /\
  (forall k, via s q <> Some k -> _urls s' !! k = _urls s !! k) /\
  _patcher s' = _patcher s /\ Session_send s' = Session_send s.
Proof.
  intros s'.
  pose proof (on_request_shape q s) as Hshape. fold s' in Hshape.
  split; [by rewrite <- (length_fmap shape), Hshape, length_fmap |].
  split; [done |]. split.
  - pose proof (on_request_cases q s) as Hc. unfold s'.
    destruct (_on_request q s) as [r s1].
    destruct (propagates q s); simpl.
    + by destruct Hc as [-> _].
    + destruct Hc as (s2 & -> & _ & _ & _ & _ & [-> | Hadv]); [done |].
      destruct Hadv as (i & m & item & rest & Hf & _ & ->). simpl.
      rewrite list_fmap_insert. apply list_insert_id.
      rewrite list_lookup_fmap, (find_match_in_range _ _ _ _ Hf). done.
  - split; [intros q'; by apply via_shape |].
    split; [intros k Hk; by apply on_request_entry |].
    apply on_request_patch.
Qed.

(** X15. A dispatch that returns a response has recorded exactly that
    response with its request, at the end of the recorder; the response
    is a registered or computed [Response] in transport shape, bound to
    the request and its url, and the request had a match. *)
Theorem returned_response_recorded `{UrlLib} (q : PreparedRequest)
    (s : RequestsMock) (r : RequestsResponse) (s' : RequestsMock) :
  _on_request q s = (Ok r, s') ->
  _calls s' = _calls s ++ [ {| c_request := q; c_response := inl r |} ] /\
  CallList.getitem (calls s') (-1) = Some {| c_request := q; c_response := inl r |} /\
  rr_request r = q /\ rr_url r = pr_url q /\
  is_Some (_find_match s q).
Proof.
  intros Hrun.
  assert (_calls s' = _calls s ++ [ {| c_request := q; c_response := inl r |} ])
    as Hcalls.
  { pose proof (on_request_calls q s) as Hc. rewrite Hrun in Hc. simpl in Hc.
    pose proof (on_request_cases q s) as Hcases. rewrite Hrun in Hcases.
    destruct (propagates q s); [| done].
    by destruct Hcases as [_ [e He]]. }
  split; [done |]. split.
  - unfold calls. rewrite Hcalls. apply getitem_last.
  - destruct (on_request_response q s r s' Hrun) as [x ->].
    split; [by unfold _as_requests_response; destruct (stream x) |].
    split; [by unfold _as_requests_response; destruct (stream x) |].
    destruct (_find_match s q) eqn:Hf; [done |].
    by rewrite (on_request_no_match q s Hf) in Hrun.
Qed.

Lemma returned_response_recorded_witness :
  let q := req "GET" "http://x.test/a" in
  let r := _as_requests_response (text "A" 200) q in
  _on_request q two_overlapping = (Ok r, recorded q (Ok r) two_overlapping) /\
  CallList.getitem (calls (recorded q (Ok r) two_overlapping)) (-1) =
    Some {| c_request := q; c_response := inl r |}.
Proof.
  intros q r. split; [reflexivity |].
  exact (proj1 (proj2 (returned_response_recorded q two_overlapping r
                         (recorded q (Ok r) two_overlapping) eq_refl))).
Defined.

(** X16. An exhausted response sequence keeps the requests it matches:
    registering further urls afterwards, the same one included, does not
    give them a fallback; the dispatch still ends with [StopIteration]
    and changes nothing. *)
Theorem exhausted_sequence_shadows `{UrlLib} (q : PreparedRequest)
    (s : RequestsMock) (i : nat) (m : Match) (meth u : string) (mq : bool)
    (se : SideEffectArg) (resp : Response) :
  _find_match s q = Some (i, m) ->
  m_side_effect m = SE_Iterator [] ->
  let s1 := snd (add meth u mq se resp s) in
  _on_request q s1 = (Raise StopIteration, s1).
Proof.
  intros Hf Hse s1.
  pose proof (find_match_after_add s meth u mq se resp q i m Hf) as Hf1.
  by rewrite (on_request_iterator q s1 i m Hf1 [] Hse).
Qed.

Lemma exhausted_sequence_shadows_witness :
  let s1 := after (add "GET" "http://x.test/s" false ArgNone (text "again" 200))
              exhausted in
  _find_match exhausted q_seq =
    Some (0, stored "GET" "http://x.test/s" false (ArgSequence []) (text "" 200)) /\
  _on_request q_seq s1 = (Raise StopIteration, s1).
Proof.
  intros s1. split; [reflexivity |].
  exact (exhausted_sequence_shadows q_seq exhausted 0 _ "GET" "http://x.test/s"
           false ArgNone (text "again" 200) eq_refl eq_refl).
Defined.

(* ===================================================================== *)
(** ** Starting and stopping *)
(* ===================================================================== *)

Lemma run_op_patch `{UrlLib} (s : RequestsMock) (o : Op) :
  _patcher (run_op s o) = _patcher s /\
  Session_send (run_op s o) = Session_send s.
Proof.
  destruct o as [meth u mq se resp | q |]; simpl; [done | | done].
  apply on_request_patch.
Qed.

Lemma run_ops_patch `{UrlLib} (ops : list Op) (s : RequestsMock) :
  _patcher (run_ops ops s) = _patcher s /\
  Session_send (run_ops ops s) = Session_send s.
Proof.
  unfold run_ops. revert s. induction ops as [|o ops IH]; intros s; simpl; [done |].
  destruct (IH (run_op s o)) as [-> ->]. apply run_op_patch.
Qed.

(** X17. [start], any registrations, requests and resets, then [stop]:
    the hook was installed in between, [stop] succeeds and puts back what
    [requests.Session.send] was before [start]; unlike [activate] it
    leaves the registry and the recorder as the uses made them. *)
Theorem start_stop_restores `{UrlLib} (s : RequestsMock) (ops : list Op) :
  let s1 := run_ops ops (snd (start s)) in
  fst (start s) = Ok tt /\
  Session_send s1 = MockSend /\
  fst (stop s1) = Ok tt /\
  Session_send (snd (stop s1)) = Session_send s /\
  _urls (snd (stop s1)) = _urls s1 /\
  _calls (snd (stop s1)) = _calls s1.
Proof.
  intros s1. destruct (run_ops_patch ops (snd (start s))) as [Hp Hs].
  fold s1 in Hp, Hs. simpl in Hp, Hs.
  split; [done |]. split; [done |].
  unfold stop. rewrite Hp. done.
Qed.

(** X18. A mock that was never started has no patcher: on a new mock,
    after any registrations, requests and resets, [stop] fails on the
    missing [_patcher] attribute and changes nothing, the host client
    being untouched all along. *)
Theorem stop_without_start `{UrlLib} (ops : list Op) :
  let s := run_ops ops init in
  _patcher s = None /\
  Session_send s = OriginalSend /\
  stop s = (Raise (AttributeError "_patcher"), s).
Proof.
  intros s. destruct (run_ops_patch ops init) as [Hp Hs].
  fold s in Hp, Hs. simpl in Hp, Hs.
  split; [done |]. split; [done |]. unfold stop. by rewrite Hp.
Qed.

(** X19. [start] on a mock that is already started neither fails nor is
    skipped: the new patcher keeps the mock's own hook as the original,
    so one [stop] after two [start]s succeeds and leaves
    [requests.Session.send] bound to the mock. *)
Theorem start_twice_stop_once `{UrlLib} (s : RequestsMock) (ops ops' : list Op) :
  let s2 := run_ops ops' (snd (start (run_ops ops (snd (start s))))) in
  fst (stop s2) = Ok tt /\
  Session_send (snd (stop s2)) = MockSend /\
  _patcher (snd (stop s2)) = Some {| temp_original := None |}.
Proof.
  intros s2.
  destruct (run_ops_patch ops' (snd (start (run_ops ops (snd (start s))))))
    as [Hp _].
  destruct (run_ops_patch ops (snd (start s))) as [_ Hs].
  fold s2 in Hp. simpl in Hp, Hs. rewrite Hs in Hp.
  unfold stop. rewrite Hp. done.
Qed.

(* ===================================================================== *)
(** ** The request handed to a callback *)
(* ===================================================================== *)

Lemma dict_last_wins (ps rest : list (string * string)) (k v : string) :
  k ∉ rest.*1 -> dict (ps ++ (k, v) :: rest) !! k = Some v.
Proof.
  intros Hk. unfold dict.
  rewrite reverse_app, reverse_cons, <- app_assoc, list_to_map_app.
  rewrite lookup_union_r.
  - simpl. apply lookup_insert_eq.
  - apply not_elem_of_list_to_map_1. by rewrite fmap_reverse, elem_of_reverse.
Qed.

Lemma dict_None (ps : list (string * string)) (k : string) :
  dict ps !! k = None <-> k ∉ ps.*1.
Proof.
  unfold dict. rewrite <- not_elem_of_list_to_map, fmap_reverse.
  by rewrite elem_of_reverse.
Qed.

(** X20. The [Request] built for a callback carries the method, the url
    and the headers of the live request; its [params] hold one value for
    each key of the parsed query, the value of the last pair with that
    key, and no other key; its [data] hold the keys parsed from the body
    in the same way. *)
Theorem captured_request_fields `{UrlLib} (q : PreparedRequest) :
  let pairs := parse_qsl (urlparse_query (pr_url q)) in
  method (_from_prepared_request q) = pr_method q /\
  url (_from_prepared_request q) = pr_url q /\
  headers (_from_prepared_request q) = pr_headers q /\
  (forall ps rest k v,
     pairs = ps ++ (k, v) :: rest -> k ∉ rest.*1 ->
     params (_from_prepared_request q) !! k = Some v) /\
  (forall k, params (_from_prepared_request q) !! k = None <-> k ∉ pairs.*1) /\
  (forall ps rest k v,
     parse_qsl (pr_body q) = ps ++ (k, v) :: rest -> k ∉ rest.*1 ->
     data (_from_prepared_request q) !! k = Some v) /\
  (forall k, data (_from_prepared_request q) !! k = None <->
             k ∉ (parse_qsl (pr_body q)).*1).
Proof.
  intros pairs. split; [done |]. split; [done |]. split; [done |].
  split; [| split; [| split]].
  - intros ps rest k v Hpairs Hk. simpl. fold pairs. rewrite Hpairs.
    by apply dict_last_wins.
  - intros k. simpl. apply dict_None.
  - intros ps rest k v Hpairs Hk. simpl. rewrite Hpairs.
    by apply dict_last_wins.
  - intros k. simpl. apply dict_None.
Qed.

Lemma captured_request_fields_witness :
  params (@_from_prepared_request Edge.repeated_key
            (req "GET" "http://x.test/?a=1&b=2&a=3")) !! "a" = Some "3".
Proof.
  exact (proj1 (proj2 (proj2 (proj2
    (@captured_request_fields Edge.repeated_key (req "GET" "http://x.test/?a=1&b=2&a=3")))))
    [("a", "1"); ("b", "2")] [] "a" "3" eq_refl
    (fun Hin => False_ind _ (proj1 (elem_of_nil _) Hin))).
Defined.

(** X21. A callback that returns a [Response]: it was called with the
    [Request] built from the live request, and the dispatch returns that
    [Response] in transport shape, with its status, records it, and
    leaves the registry as it was; the fixed response of the dictionary
    plays no part. *)
Theorem callback_response_served `{UrlLib} (q : PreparedRequest) (s : RequestsMock)
    (i : nat) (m : Match) (f : Request -> Res PyVal) (x : Response) :
  _find_match s q = Some (i, m) ->
  m_side_effect m = SE_Callable f ->
  f (_from_prepared_request q) = Ok (VResponse x) ->
  let r := _as_requests_response x q in
  fst (_on_request q s) = Ok r /\
  rr_status_code r = status x /\
  _calls (snd (_on_request q s)) =
    _calls s ++ [ {| c_request := q; c_response := inl r |} ] /\
  _urls (snd (_on_request q s)) = _urls s.
Proof.
  intros Hf Hse Hx r.
  rewrite (on_request_callable q s i m Hf f Hse), Hx.
  split; [done |]. split; [| done].
  unfold r, _as_requests_response. by destruct (stream x).
Qed.

Lemma callback_response_served_witness :
  let s := after (add "POST" "http://x.test/c" false
                    (ArgCallable not_found_unless_get) (text "" 200)) init in
  let q := req "POST" "http://x.test/c" in
  _find_match s q =
    Some (0, stored "POST" "http://x.test/c" false
               (ArgCallable not_found_unless_get) (text "" 200)) /\
  fst (_on_request q s) = Ok (_as_requests_response (text "" 404) q) /\
  rr_status_code (_as_requests_response (text "" 404) q) = 404%Z.
Proof.
  intros s q. split; [reflexivity |].
  destruct (callback_response_served q s 0 _ not_found_unless_get (text "" 404)
              eq_refl eq_refl eq_refl) as (Hout & Hstatus & _).
  split; [exact Hout | exact Hstatus].
Defined.
